(** * Shallow embedding of scripts/transaction_generator.py

    The generator draws from two pseudo-random sources (numpy's global
    RandomState and Python's [random] module), both seeded at import time,
    and reads the wall clock ([datetime.now()], [time.time()]).  Both are
    modelled as oracles indexed by the number of calls made so far; the
    program threads those call counters through a state/error monad.
    Python exceptions are the error branch. *)

From Stdlib Require Import ZArith QArith Qround Qabs List String Ascii Bool Lia.
From Stdlib Require Import Sorting.Sorted Sorting.Permutation.
Import ListNotations.
Open Scope string_scope.
Open Scope Z_scope.

(** ** Python values used by the script *)

(** Python numbers: [MONTANT_RANGES] holds [int]s, [round(np.float64, 0)]
    yields a (whole) [np.float64].  Values compare exactly. *)
Inductive PyNum :=
| PInt (z : Z)
| PFloat (q : Q).

Definition num_val (x : PyNum) : Q :=
  match x with PInt z => inject_Z z | PFloat q => q end.

Definition qltb (x y : Q) : bool := negb (Qle_bool y x).

(** Builtin [min(a, b)]: keeps [a] unless [b < a]. *)
Definition py_min (a b : PyNum) : PyNum :=
  if qltb (num_val b) (num_val a) then b else a.

(** Builtin [max(a, b)]: keeps [a] unless [b > a]. *)
Definition py_max (a b : PyNum) : PyNum :=
  if qltb (num_val a) (num_val b) then b else a.

(** [np.round(x, 0)] on a float: round half to even. *)
Definition round0 (x : Q) : Q :=
  let f := Qfloor x in
  let d := Qminus x (inject_Z f) in
  if qltb d (1#2) then inject_Z f
  else if qltb (1#2) d then inject_Z (f + 1)
  else if Z.even f then inject_Z f else inject_Z (f + 1).

(** [int(x)] on a float: truncation toward zero. *)
Definition py_int (x : Q) : Z :=
  if Qle_bool 0 x then Qfloor x else - Qfloor (Qopp x).

(** ** Decimal rendering of integers ([str(int)], f-strings) *)

Definition digit_char (d : Z) : ascii := ascii_of_nat (48 + Z.to_nat d).

Fixpoint digits_aux (fuel : nat) (n : Z) : string :=
  match fuel with
  | O => EmptyString
  | S f =>
      if n <? 10 then String (digit_char n) EmptyString
      else digits_aux f (n / 10) ++ String (digit_char (n mod 10)) EmptyString
  end.

(** Every division by 10 at least halves [n], so [log2 n + 1] steps suffice. *)
Definition digits (n : Z) : string := digits_aux (S (Z.to_nat (Z.log2 n))) n.

Definition str_int (n : Z) : string :=
  if n <? 0 then "-" ++ digits (- n) else digits n.

(** Zero padding used by [strftime] ([%m], [%d], [%H], [%M], [%S], [%Y]). *)
Definition pad_left (w : nat) (s : string) : string :=
  append (String.concat "" (repeat "0" (w - String.length s))) s.

Definition is_digit (c : ascii) : bool :=
  let n := nat_of_ascii c in (Nat.leb 48 n && Nat.leb n 57)%bool.

Fixpoint all_digits (s : string) : bool :=
  match s with
  | EmptyString => true
  | String c r => (is_digit c && all_digits r)%bool
  end.

Fixpoint count_char (c : ascii) (s : string) : nat :=
  match s with
  | EmptyString => O
  | String d r => if Ascii.eqb c d then S (count_char c r) else count_char c r
  end.

(** ** Naive datetimes

    A [datetime] is the number of microseconds since 0001-01-01 00:00:00;
    the valid range ends with 9999-12-31 23:59:59.999999. *)

Definition US : Z := 1000000.
Definition DAY_US : Z := 86400 * US.
Definition HOUR_US : Z := 3600 * US.
Definition MAX_US : Z := 3652059 * DAY_US.

Definition dt_valid (t : Z) : bool := (0 <=? t) && (t <? MAX_US).

(** 1000-01-01 00:00:00, the first datetime whose year has four digits. *)
Definition Y1000_US : Z := 364877 * DAY_US.

(** Proleptic Gregorian date of a day count relative to 1970-01-01. *)
Definition civil_from_days (z0 : Z) : Z * Z * Z :=
  let z := z0 + 719468 in
  let era := z / 146097 in
  let doe := z - era * 146097 in
  let yoe := (doe - doe / 1460 + doe / 36524 - doe / 146096) / 365 in
  let y := yoe + era * 400 in
  let doy := doe - (365 * yoe + yoe / 4 - yoe / 100) in
  let mp := (5 * doy + 2) / 153 in
  let d := doy - (153 * mp + 2) / 5 + 1 in
  let m := if mp <? 10 then mp + 3 else mp - 9 in
  (if m <=? 2 then y + 1 else y, m, d).

(** Components rendered by [strftime('%Y-%m-%d %H:%M:%S')]. *)
Definition dt_second (t : Z) : Z := (t / US) mod 60.
Definition dt_minute (t : Z) : Z := ((t / US) mod 3600) / 60.
Definition dt_hour (t : Z) : Z := ((t / US) mod 86400) / 3600.

(** 0001-01-01 is day -719162 relative to 1970-01-01. *)
Definition dt_date (t : Z) : Z * Z * Z := civil_from_days (t / DAY_US - 719162).

(** [%Y] is expanded by the C library's [strftime]: with CPython 3.11 on
    glibc the year is written in decimal without zero padding, so years
    below 1000 have fewer than four digits (['999-12-31 23:59:59']); the
    other fields are zero-padded to two digits. *)
Definition strftime (t : Z) : string :=
  let '(y, mo, d) := dt_date t in
  str_int y ++ "-" ++ pad_left 2 (str_int mo) ++ "-" ++
  pad_left 2 (str_int d) ++ " " ++ pad_left 2 (str_int (dt_hour t)) ++ ":" ++
  pad_left 2 (str_int (dt_minute t)) ++ ":" ++ pad_left 2 (str_int (dt_second t)).

(** ** Configuration (module-level constants of the script) *)

Record Config := mkConfig {
  VILLES : list string;
  TRANSACTION_TYPES : list (string * Q);   (* dict, insertion ordered *)
  OPERATEURS : list string;
  MONTANT_RANGES : list (string * (Z * Z))
}.

Fixpoint lookup {A} (k : string) (l : list (string * A)) : option A :=
  match l with
  | [] => None
  | (k', v) :: r => if String.eqb k k' then Some v else lookup k r
  end.

(** ["Thiès"] as the UTF-8 bytes the script's source holds. *)
Definition thies : string :=
  "Thi" ++ String (ascii_of_nat 195) (String (ascii_of_nat 168) "s").

Definition config0 : Config := {|
  VILLES := ["Dakar"; thies; "Saint-Louis"; "Kaolack"; "Ziguinchor"];
  TRANSACTION_TYPES :=
    [("transfer", 45 # 100); ("payment", 30 # 100);
     ("withdrawal", 20 # 100); ("deposit", 5 # 100)];
  OPERATEURS := ["Orange Money"; "Wave"; "Free Money"; "Wizall"];
  MONTANT_RANGES :=
    [("transfer", (1000, 100000)); ("payment", (500, 50000));
     ("withdrawal", (5000, 200000)); ("deposit", (10000, 500000))]
|}.

(** ** Transactions (the dict built by [generer_transaction]) *)

Record Transaction := mkTransaction {
  transaction_id : string;
  timestamp : string;
  user_id : string;
  amount : PyNum;
  city : string;
  transaction_type : string;
  operator : string;
  status : string
}.

Definition set_timestamp (t : Transaction) (s : string) : Transaction :=
  {| transaction_id := transaction_id t; timestamp := s; user_id := user_id t;
     amount := amount t; city := city t; transaction_type := transaction_type t;
     operator := operator t; status := status t |}.

(** ** Effects: random sources, wall clock, exceptions *)

Inductive Exc :=
| ValueError (msg : string)
| IndexError (msg : string)
| KeyError (msg : string)
| OverflowError (msg : string).

(** Number of calls made so far to each source. *)
Record World := mkWorld { np_calls : nat; py_calls : nat; clock_calls : nat }.

Definition world0 : World := mkWorld 0 0 0.

(** Draws of the seeded generators, by call index.  [np_random_sample k]
    is the [random_sample()] of numpy's [k]-th call, [np_lognormal k a s]
    the [lognormal(mean=log a, sigma=s)] of numpy's [k]-th call (a rational:
    for [a < 0] numpy's [log] gives [nan] and so does the draw, a value the
    model does not represent; statements about it assume [0 < a]), and
    [py_randbelow k n] the [_randbelow(n)] of Python's [k]-th call. *)
Record Rng := mkRng {
  np_random_sample : nat -> Q;
  np_lognormal : nat -> Q -> Q -> Q;
  py_randbelow : nat -> Z -> Z
}.

(** Wall clock readings, by read index: [time.time()] in seconds since the
    epoch, [datetime.now()] as a naive local datetime. *)
Record Clock := mkClock {
  time_time : nat -> Q;
  datetime_now : nat -> Z
}.

(** The contract of the generators' primitive draws. *)
Definition rng_ok (r : Rng) : Prop :=
  (forall k, 0 <= np_random_sample r k < 1)%Q /\
  (forall k n, 0 < n -> 0 <= py_randbelow r k n < n).

Definition M (A : Type) : Type := World -> Exc + (A * World).

Definition ret {A} (x : A) : M A := fun w => inr (x, w).
Definition raise {A} (e : Exc) : M A := fun _ => inl e.
Definition bind {A B} (c : M A) (f : A -> M B) : M B :=
  fun w => match c w with inl e => inl e | inr (x, w') => f x w' end.

Notation "x <- c ;; k" := (bind c (fun x => k))
  (at level 61, c at next level, right associativity).

Definition qsum (l : list Q) : Q := fold_right Qplus 0%Q l.

Fixpoint cumsum_from (acc : Q) (l : list Q) : list Q :=
  match l with [] => [] | x :: r => (acc + x)%Q :: cumsum_from (acc + x)%Q r end.

(** [sqrt(finfo(float64).eps)] = 2^-26. *)
Definition ATOL : Q := 1 # 67108864.

Section Program.

Variable cfg : Config.
Variable rng : Rng.
Variable clk : Clock.

(** [df.sort_values('timestamp')] with pandas' default [kind='quicksort'];
    its contract is stated below ([sort_contract]), its code is
    [pandas_sort_values]. *)
Variable sort_values : list Transaction -> list Transaction.

(** *** Primitive draws *)

Definition np_random_sample_m : M Q := fun w =>
  inr (np_random_sample rng (np_calls w),
       mkWorld (S (np_calls w)) (py_calls w) (clock_calls w)).

Definition np_lognormal_m (a sigma : Q) : M Q := fun w =>
  inr (np_lognormal rng (np_calls w) a sigma,
       mkWorld (S (np_calls w)) (py_calls w) (clock_calls w)).

Definition randbelow (n : Z) : M Z := fun w =>
  inr (py_randbelow rng (py_calls w) n,
       mkWorld (np_calls w) (S (py_calls w)) (clock_calls w)).

Definition now_m : M Z := fun w =>
  inr (datetime_now clk (clock_calls w),
       mkWorld (np_calls w) (py_calls w) (S (clock_calls w))).

Definition time_m : M Q := fun w =>
  inr (time_time clk (clock_calls w),
       mkWorld (np_calls w) (py_calls w) (S (clock_calls w))).

(** [np.random.choice(a, p=p)] (numpy's mtrand): argument checks, then
    [cdf = p.cumsum(); cdf /= cdf[-1]] and
    [cdf.searchsorted(random_sample(), side='right')]; on the
    nondecreasing [cdf] the search counts the entries [<= u]. *)
Definition np_choice (a : list string) (p : list Q) : M string :=
  match a with
  | [] => raise (ValueError "'a' cannot be empty unless no samples are taken")
  | _ =>
    if negb (Nat.eqb (List.length p) (List.length a))
    then raise (ValueError "'a' and 'p' must have same size")
    else if existsb (fun x => qltb x 0) p
    then raise (ValueError "probabilities are not non-negative")
    else if qltb ATOL (Qabs (qsum p - 1))
    then raise (ValueError "probabilities do not sum to 1")
    else
      u <- np_random_sample_m ;;
      let total := qsum p in
      let cdf := map (fun c => c / total)%Q (cumsum_from 0 p) in
      let idx := List.length (filter (fun c => Qle_bool c u) cdf) in
      match nth_error a idx with
      | Some x => ret x
      | None => raise (IndexError "index out of bounds")
      end
  end.

(** [random.choice(seq)]: [seq[self._randbelow(len(seq))]]. *)
Definition py_choice (l : list string) : M string :=
  match l with
  | [] => raise (IndexError "Cannot choose from an empty sequence")
  | _ => i <- randbelow (Z.of_nat (List.length l)) ;;
         match nth_error l (Z.to_nat i) with
         | Some x => ret x
         | None => raise (IndexError "list index out of range")
         end
  end.

(** [random.randint(a, b)] = [randrange(a, b + 1)]. *)
Definition py_randint (a b : Z) : M Z :=
  let width := b + 1 - a in
  if width <=? 0 then raise (ValueError "empty range in randrange")
  else i <- randbelow width ;; ret (a + i).

(** [datetime + timedelta]: [OverflowError] outside the valid range. *)
Definition dt_add (t delta : Z) : M Z :=
  if dt_valid (t + delta) then ret (t + delta)
  else raise (OverflowError "date value out of range").

(** *** The script's functions *)

Definition generer_montant (transaction_type : string) : M PyNum :=
  match lookup transaction_type (MONTANT_RANGES cfg) with
  | None => raise (KeyError transaction_type)
  | Some (min_val, max_val) =>
      montant <- np_lognormal_m
                   (inject_Z min_val + inject_Z (max_val - min_val) / inject_Z 3)%Q
                   (8 # 10) ;;
      ret (py_max (PInt min_val) (py_min (PInt max_val) (PFloat (round0 montant))))
  end.

Definition prefixes : list string := ["77"; "78"; "76"; "70"; "75"].

Definition generer_user_id : M string :=
  prefix <- py_choice prefixes ;;
  numero <- py_randint 1000000 9999999 ;;
  ret ("user_" ++ (prefix ++ str_int numero)).

Definition make_transaction_id (ms suffix : Z) : string :=
  "TXN" ++ (str_int ms ++ ("_" ++ str_int suffix)).

Definition generer_transaction : M Transaction :=
  trans_type <- np_choice (map fst (TRANSACTION_TYPES cfg))
                          (map snd (TRANSACTION_TYPES cfg)) ;;
  amt <- generer_montant trans_type ;;
  cty <- py_choice (VILLES cfg) ;;
  op <- py_choice (OPERATEURS cfg) ;;
  uid <- generer_user_id ;;
  ts <- now_m ;;
  tt <- time_m ;;
  suffix <- py_randint 1000 9999 ;;
  ret {| transaction_id := make_transaction_id (py_int (tt * 1000)%Q) suffix;
         timestamp := strftime ts;
         user_id := uid;
         amount := amt;
         city := cty;
         transaction_type := trans_type;
         operator := op;
         status := "completed" |}.

(** The loop of [generer_batch_transactions] (lines 116-128), [k] iterations
    left; the list is in generation order. *)
Fixpoint batch_loop (base_date : Z) (k : nat) : M (list Transaction) :=
  match k with
  | O => ret []
  | S k' =>
      trans <- generer_transaction ;;
      offset_hours <- py_randint 0 (7 * 24) ;;
      ts <- dt_add base_date (offset_hours * HOUR_US) ;;
      rest <- batch_loop base_date k' ;;
      ret (set_timestamp trans (strftime ts) :: rest)
  end.

(** Lines 111-128: the transactions before the DataFrame is built. *)
Definition collect_transactions (n : nat) : M (list Transaction) :=
  now <- now_m ;;
  base_date <- dt_add now (- (7 * DAY_US)) ;;
  batch_loop base_date n.

(** [pd.DataFrame(transactions).sort_values('timestamp')]: a DataFrame built
    from an empty list has no ['timestamp'] column. *)
Definition generer_batch_transactions (n : nat) : M (list Transaction) :=
  transactions <- collect_transactions n ;;
  match transactions with
  | [] => raise (KeyError "timestamp")
  | _ => ret (sort_values transactions)
  end.

End Program.

(** ** Export: [df.to_csv(output_path, index=False, encoding='utf-8')] *)

Definition newline : string := String (ascii_of_nat 10) EmptyString.
Definition comma : ascii := ","%char.
Definition lf : ascii := ascii_of_nat 10.
Definition dquote : ascii := ascii_of_nat 34.

Definition csv_header : string :=
  "transaction_id,timestamp,user_id,amount,city,transaction_type,operator,status".

(** The [amount] column is [int64] when every value is a Python [int], and
    [float64] otherwise.  pandas writes a [float64] value with [repr]: a
    whole float below 2^53 in magnitude as its digits and [.0], which is
    what [render_amount] writes.  Beyond that the rendering below is not
    pandas': an [int] above 2^53 is rounded when the column is converted to
    [float64], and from 1e16 on [repr] uses exponent notation ([1e+16]). *)
Definition amount_column_int (df : list Transaction) : bool :=
  forallb (fun t => match amount t with PInt _ => true | PFloat _ => false end) df.

Definition render_amount (as_int : bool) (a : PyNum) : string :=
  match a with
  | PInt z => if as_int then str_int z else str_int z ++ ".0"
  | PFloat q => str_int (Qfloor q) ++ ".0"
  end.

(** pandas writes the rows with Python's [csv.writer] (delimiter [','],
    quotechar a double quote, [doublequote], [QUOTE_MINIMAL], line
    terminator a line feed): a field holding the delimiter, the quote
    character or the line feed is written between quotes with its quotes
    doubled; any other field is written as it is (a carriage return alone
    does not cause quoting in CPython 3.11). *)
Fixpoint csv_needs_quote (s : string) : bool :=
  match s with
  | EmptyString => false
  | String c r =>
      (Ascii.eqb c comma || Ascii.eqb c dquote || Ascii.eqb c lf || csv_needs_quote r)%bool
  end.

Fixpoint double_quotes (s : string) : string :=
  match s with
  | EmptyString => EmptyString
  | String c r =>
      if Ascii.eqb c dquote then String dquote (String dquote (double_quotes r))
      else String c (double_quotes r)
  end.

Definition csv_quote (s : string) : string :=
  if csv_needs_quote s then String dquote (double_quotes s ++ String dquote EmptyString)
  else s.

Definition csv_row (as_int : bool) (t : Transaction) : string :=
  csv_quote (transaction_id t) ++ "," ++ csv_quote (timestamp t) ++ "," ++
  csv_quote (user_id t) ++ "," ++ csv_quote (render_amount as_int (amount t)) ++ "," ++
  csv_quote (city t) ++ "," ++ csv_quote (transaction_type t) ++ "," ++
  csv_quote (operator t) ++ "," ++ csv_quote (status t).

Definition to_csv (df : list Transaction) : string :=
  let as_int := amount_column_int df in
  csv_header ++ newline ++
  String.concat "" (map (fun t => csv_row as_int t ++ newline) df).

(** The script's main: generate, then export. *)
Definition run_pipeline (cfg : Config) (rng : Rng) (clk : Clock)
    (sort_values : list Transaction -> list Transaction) (n : nat)
  : M string :=
  df <- generer_batch_transactions cfg rng clk sort_values n ;;
  ret (to_csv df).

(** ** The sort

    pandas documents [sort_values(kind='quicksort')] as returning the rows
    ordered by the key; only ['mergesort'] and ['stable'] are documented as
    stable.  The key compares Python [str]s, i.e. lexicographically.  The
    batch is stated for any sort meeting [sort_contract]; the sort pandas
    actually runs is modelled by [pandas_sort_values] below. *)

Definition ts_le (a b : Transaction) : Prop :=
  String.leb (timestamp a) (timestamp b) = true.

Definition sort_contract (sv : list Transaction -> list Transaction) : Prop :=
  forall l, Permutation l (sv l) /\ Sorted ts_le (sv l).

(** Stability with respect to the timestamp key: for every key, the rows
    carrying it keep their input order. *)
Definition stable_wrt (input output : list Transaction) : Prop :=
  forall s, filter (fun t => String.eqb (timestamp t) s) output =
            filter (fun t => String.eqb (timestamp t) s) input.

(** An instance of the contract: an insertion sort that puts an inserted
    row before equal keys. *)
Fixpoint ins (f : Transaction -> Transaction -> bool) (x : Transaction)
    (l : list Transaction) : list Transaction :=
  match l with
  | [] => [x]
  | y :: r => if f x y then x :: y :: r else y :: ins f x r
  end.

Definition ts_leb (a b : Transaction) : bool := String.leb (timestamp a) (timestamp b).

Definition insertion_sort_stable (l : list Transaction) : list Transaction :=
  fold_right (ins ts_leb) [] l.

(** ** pandas' [sort_values('timestamp')] as the code runs it

    [DataFrame.sort_values] with one key and its default [kind='quicksort']
    computes [nargsort]: [indexer = non_nan_idx[non_nans.argsort(kind=kind)]]
    then [take(indexer)].  The [timestamp] column holds Python [str]s, an
    [object] array, whose [argsort(kind='quicksort')] is numpy's generic
    [npy_aquicksort] (npysort/quicksort.cpp), an introsort falling back to
    [npy_aheapsort] (npysort/heapsort.cpp) and finishing small segments by
    insertion sort; [cmp(a, b) < 0] is Python's [a < b] on [str].  The
    index array [tosort] is a [list nat]; pointers into it are positions.
    Every [fuel] argument bounds a C loop and is never exhausted: each loop
    runs at most [num] times. *)

Section NumpySort.
Local Open Scope nat_scope.

(** The keys [v], indexed by the entries of [tosort]. *)
Variable v : list string.

Definition npy_key (i : nat) : string := nth i v "".

Definition npy_lt (x y : string) : bool :=
  match String.compare x y with Lt => true | _ => false end.

Definition get (a : list nat) (i : nat) : nat := nth i a O.

Fixpoint set_nth (a : list nat) (i x : nat) : list nat :=
  match a, i with
  | [], _ => []
  | _ :: r, O => x :: r
  | y :: r, S i' => y :: set_nth r i' x
  end.

(** [INTP_SWAP(a[i], a[j])] *)
Definition swap (a : list nat) (i j : nat) : list nat :=
  set_nth (set_nth a i (get a j)) j (get a i).

(** [if (cmp(v + a[i], v + a[j]) < 0) INTP_SWAP(a[i], a[j]);] *)
Definition swap_if_lt (a : list nat) (i j : nat) : list nat :=
  if npy_lt (npy_key (get a i)) (npy_key (get a j)) then swap a i j else a.

(** [do ++pi; while (cmp(v + a[pi], vp) < 0);] *)
Fixpoint scan_up (fuel : nat) (vp : string) (a : list nat) (pi : nat) : nat :=
  match fuel with
  | O => S pi
  | S f => if npy_lt (npy_key (get a (S pi))) vp then scan_up f vp a (S pi) else S pi
  end.

(** [do --pj; while (cmp(vp, v + a[pj]) < 0);] *)
Fixpoint scan_down (fuel : nat) (vp : string) (a : list nat) (pj : nat) : nat :=
  match fuel with
  | O => pj - 1
  | S f => if npy_lt vp (npy_key (get a (pj - 1))) then scan_down f vp a (pj - 1) else pj - 1
  end.

(** [for (;;) { scan up; scan down; if (pi >= pj) break; INTP_SWAP(a[pi], a[pj]); }] *)
Fixpoint hoare_loop (fuel : nat) (vp : string) (a : list nat) (pi pj : nat) : list nat * nat :=
  match fuel with
  | O => (a, pi)
  | S f =>
      let pi' := scan_up (List.length a) vp a pi in
      let pj' := scan_down (List.length a) vp a pj in
      if pj' <=? pi' then (a, pi') else hoare_loop f vp (swap a pi' pj') pi' pj'
  end.

(** One partition of [[pl, pr]]: median of three at [pl], [pm], [pr], the
    pivot parked at [pr - 1], Hoare's scan, the pivot put at [pi]. *)
Definition partition (a : list nat) (pl pr : nat) : list nat * nat :=
  let pm := pl + Nat.shiftr (pr - pl) 1 in
  let a := swap_if_lt a pm pl in
  let a := swap_if_lt a pr pm in
  let a := swap_if_lt a pm pl in
  let vp := npy_key (get a pm) in
  let a := swap a pm (pr - 1) in
  let '(a, pi) := hoare_loop (List.length a) vp a pl (pr - 1) in
  (swap a pi (pr - 1), pi).

Definition SMALL_QUICKSORT : nat := 16.

(** [while ((pr - pl) > SMALL_QUICKSORT) { partition; push the larger part
    with [--cdepth]; continue with the smaller }]; a stack frame is
    [(pl, pr, cdepth)]. *)
Fixpoint partition_loop (fuel : nat) (a : list nat) (pl pr : nat) (cdepth : Z)
    (stk : list (nat * nat * Z)) : list nat * nat * nat * list (nat * nat * Z) :=
  match fuel with
  | O => (a, pl, pr, stk)
  | S f =>
      if SMALL_QUICKSORT <? pr - pl then
        let '(a, pi) := partition a pl pr in
        let cdepth := (cdepth - 1)%Z in
        if pi - pl <? pr - pi then partition_loop f a pl (pi - 1) cdepth ((S pi, pr, cdepth) :: stk)
        else partition_loop f a (S pi) pr cdepth ((pl, pi - 1, cdepth) :: stk)
      else (a, pl, pr, stk)
  end.

(** [while (pj > pl && cmp(vp, v + a[pj - 1]) < 0) { a[pj] = a[pj - 1]; pj--; }] *)
Fixpoint shift_down (fuel : nat) (vp : string) (pl pj : nat) (a : list nat) : list nat * nat :=
  match fuel with
  | O => (a, pj)
  | S f =>
      if (pl <? pj) && npy_lt vp (npy_key (get a (pj - 1))) then
        shift_down f vp pl (pj - 1) (set_nth a pj (get a (pj - 1)))
      else (a, pj)
  end.

(** [for (pi = pl + 1; pi <= pr; ++pi) { vi = a[pi]; shift; a[pj] = vi; }],
    from a given [pi]. *)
Fixpoint insertion_from (fuel : nat) (pl pi pr : nat) (a : list nat) : list nat :=
  match fuel with
  | O => a
  | S f =>
      if pi <=? pr then
        let vi := get a pi in
        let '(a', pj) := shift_down pi (npy_key vi) pl pi a in
        insertion_from f pl (S pi) pr (set_nth a' pj vi)
      else a
  end.

Definition insertion_sort_seg (a : list nat) (pl pr : nat) : list nat :=
  insertion_from (S pr) pl (S pl) pr a.

(** [npy_aheapsort] on the [n] entries from position [off]; the C code
    indexes them from 1 ([a = tosort - 1]). *)
Definition hget (a : list nat) (off k : nat) : nat := get a (off + k - 1).
Definition hset (a : list nat) (off k x : nat) : list nat := set_nth a (off + k - 1) x.

(** [for (i = l, j = l << 1; j <= n;) { ... }  a[i] = tmp;] *)
Fixpoint sift (fuel : nat) (a : list nat) (off n tmp i j : nat) : list nat :=
  match fuel with
  | O => hset a off i tmp
  | S f =>
      if j <=? n then
        let j := if (j <? n) && npy_lt (npy_key (hget a off j)) (npy_key (hget a off (S j)))
                 then S j else j in
        if npy_lt (npy_key tmp) (npy_key (hget a off j))
        then sift f (hset a off i (hget a off j)) off n tmp j (j + j)
        else hset a off i tmp
      else hset a off i tmp
  end.

(** [for (l = n >> 1; l > 0; --l) { tmp = a[l]; sift; }] *)
Fixpoint heapify (fuel : nat) (a : list nat) (off n l : nat) : list nat :=
  match fuel with
  | O => a
  | S f => if 0 <? l then heapify f (sift n a off n (hget a off l) l (l + l)) off n (l - 1) else a
  end.

(** [for (; n > 1;) { tmp = a[n]; a[n] = a[1]; n -= 1; sift from 1; }] *)
Fixpoint pop_heap (fuel : nat) (a : list nat) (off n : nat) : list nat :=
  match fuel with
  | O => a
  | S f =>
      if 1 <? n then
        let tmp := hget a off n in
        let a := hset a off n (hget a off 1) in
        pop_heap f (sift (n - 1) a off (n - 1) tmp 1 2) off (n - 1)
      else a
  end.

Definition npy_aheapsort (a : list nat) (off n : nat) : list nat :=
  pop_heap n (heapify n a off n (Nat.shiftr n 1)) off n.

(** The outer [for (;;)] of [npy_aquicksort]: heapsort once the depth
    budget is spent, else partition down to a small segment and insertion
    sort it; then pop the next segment, or stop on an empty stack. *)
Fixpoint aquicksort_loop (fuel : nat) (a : list nat) (pl pr : nat) (cdepth : Z)
    (stk : list (nat * nat * Z)) : list nat :=
  match fuel with
  | O => a
  | S f =>
      let '(a, stk) :=
        if (cdepth <? 0)%Z then (npy_aheapsort a pl (S (pr - pl)), stk)
        else let '(a, pl, pr, stk) := partition_loop (List.length a) a pl pr cdepth stk in
             (insertion_sort_seg a pl pr, stk) in
      match stk with
      | [] => a
      | (pl, pr, cdepth) :: stk => aquicksort_loop f a pl pr cdepth stk
      end
  end.

(** [npy_get_msb(num)]: [while (unum >>= 1) depth_limit++;]. *)
Definition npy_get_msb (num : nat) : Z := Z.of_nat (Nat.log2 num).

(** [argsort(kind='quicksort')]: [tosort] starts as [0 .. num - 1],
    [pl = 0], [pr = num - 1], [cdepth = 2 * npy_get_msb(num)]. *)
Definition npy_aquicksort : list nat :=
  let num := List.length v in
  aquicksort_loop (S num) (seq 0 num) 0 (num - 1) (2 * npy_get_msb num)%Z [].

End NumpySort.

(** [take(indexer)] on the rows. *)
Definition take_rows (l : list Transaction) (idx : list nat) : list Transaction :=
  flat_map (fun i => match nth_error l i with Some t => [t] | None => [] end) idx.

Definition pandas_sort_values (l : list Transaction) : list Transaction :=
  take_rows l (npy_aquicksort (map timestamp l)).


(** The insertion sort that [npy_aquicksort] runs on at most 17 entries,
    written on lists: [insr x rp] inserts [x] into a sorted prefix given in
    reverse, moving past the entries whose key is greater than [x]'s. *)
Fixpoint insr (v : list string) (x : nat) (rp : list nat) : list nat :=
  match rp with
  | [] => [x]
  | y :: r => if npy_lt (npy_key v x) (npy_key v y) then y :: insr v x r else x :: y :: r
  end.

(** The same insertion on the rows, by their timestamps. *)
Fixpoint insr_rows (x : Transaction) (rp : list Transaction) : list Transaction :=
  match rp with
  | [] => [x]
  | y :: r => if npy_lt (timestamp x) (timestamp y) then y :: insr_rows x r else x :: y :: r
  end.

Definition isort_rows (l : list Transaction) : list Transaction :=
  rev (fold_left (fun rp x => insr_rows x rp) l []).

(** The reverse of [ts_le], the order of the reversed prefixes. *)
Definition ts_ge (a b : Transaction) : Prop := ts_le b a.

(** ** Concrete instances for evaluation *)

Definition rng_demo : Rng := {|
  np_random_sample := fun k => if Nat.even k then 0%Q else (1 # 2)%Q;
  np_lognormal := fun k a _ => (a * inject_Z (Z.of_nat k + 1) / 2)%Q;
  py_randbelow := fun k n => (Z.of_nat k * 7919) mod n
|}.

(** 2026-10-17 12:34:56.789012, plus 1 ms per read. *)
Definition clock_demo : Clock := {|
  time_time := fun k => (inject_Z 1760704496 + inject_Z (Z.of_nat k) / 1000)%Q;
  datetime_now := fun k => 63927837296789012 + Z.of_nat k * 1000
|}.

Example str_int_ex : str_int 1234567 = "1234567" /\ str_int (-50) = "-50"
  /\ str_int 0 = "0" /\ pad_left 2 (str_int 7) = "07".
Proof. vm_compute. auto. Qed.

Example strftime_ex : strftime 63927837296789012 = "2026-10-17 12:34:56".
Proof. vm_compute. reflexivity. Qed.

Definition demo_run := generer_batch_transactions config0 rng_demo clock_demo
  insertion_sort_stable 3 world0.

Definition result_value {A} (d : A) (r : Exc + (A * World)) : A :=
  match r with inr (x, _) => x | inl _ => d end.

Definition result_world {A} (r : Exc + (A * World)) : World :=
  match r with inr (_, w) => w | inl _ => world0 end.

Definition demo_tx : Transaction :=
  mkTransaction "" "" "" (PInt 0) "" "" "" "".

Definition demo_df : list Transaction := result_value [] demo_run.
Definition demo_world : World := result_world demo_run.

Definition demo_t0 : Transaction := nth 0 demo_df demo_tx.

(** Generators that always draw [0], and clocks frozen or shifted. *)
Definition rng_zero : Rng := {|
  np_random_sample := fun _ => 0%Q;
  np_lognormal := fun k a _ => (a * inject_Z (Z.of_nat k + 1) / 2)%Q;
  py_randbelow := fun _ _ => 0
|}.

Definition clock_frozen : Clock := {|
  time_time := fun _ => inject_Z 1760704496;
  datetime_now := fun _ => 63927837296789012
|}.

(** [clock_demo], one day later. *)
Definition clock_next_day : Clock := {|
  time_time := fun k => (inject_Z (1760704496 + 86400) + inject_Z (Z.of_nat k) / 1000)%Q;
  datetime_now := fun k => 63927837296789012 + DAY_US + Z.of_nat k * 1000
|}.

Definition with_ranges (c : Config) (r : list (string * (Z * Z))) : Config :=
  mkConfig (VILLES c) (TRANSACTION_TYPES c) (OPERATEURS c) r.

(** [MONTANT_RANGES] with the bounds of ['transfer'] swapped. *)
Definition config_swapped_range : Config :=
  with_ranges config0
    [("transfer", (100000, 1000)); ("payment", (500, 50000));
     ("withdrawal", (5000, 200000)); ("deposit", (10000, 500000))].

Definition config_bad_weights : Config :=
  mkConfig (VILLES config0)
    [("transfer", 45 # 100); ("payment", 30 # 100);
     ("withdrawal", 20 # 100); ("deposit", 4 # 100)]
    (OPERATEURS config0) (MONTANT_RANGES config0).

Definition config_no_city : Config :=
  mkConfig [] (TRANSACTION_TYPES config0) (OPERATEURS config0) (MONTANT_RANGES config0).

Definition config_no_operator : Config :=
  mkConfig (VILLES config0) (TRANSACTION_TYPES config0) [] (MONTANT_RANGES config0).

Definition config_no_type : Config :=
  mkConfig (VILLES config0) [] (OPERATEURS config0) (MONTANT_RANGES config0).

(** The record fields that come from the random sources only. *)
Definition drawn_fields (t : Transaction) :=
  (user_id t, amount t, city t, transaction_type t, operator t, status t).

Definition frozen_run := generer_batch_transactions config0 rng_zero clock_frozen
  insertion_sort_stable 2 world0.

Definition frozen_df : list Transaction := result_value [] frozen_run.

(** [rng_zero] and [clock_demo] give every row the same timestamp. *)
Definition tie18_collect := collect_transactions config0 rng_zero clock_demo 18 world0.
Definition tie18_run :=
  generer_batch_transactions config0 rng_zero clock_demo pandas_sort_values 18 world0.
Definition tie17_collect := collect_transactions config0 rng_zero clock_demo 17 world0.
Definition tie17_run :=
  generer_batch_transactions config0 rng_zero clock_demo pandas_sort_values 17 world0.

Definition export_today := run_pipeline config0 rng_demo clock_demo insertion_sort_stable 1 world0.
Definition export_next_day :=
  run_pipeline config0 rng_demo clock_next_day insertion_sort_stable 1 world0.

Definition collect_today := collect_transactions config0 rng_demo clock_demo 3 world0.
Definition collect_next_day := collect_transactions config0 rng_demo clock_next_day 3 world0.

(** Reading back a decimal rendering (used to state that renderings are
    injective; not part of the script). *)
Fixpoint parse_digits (acc : Z) (s : string) : Z :=
  match s with
  | EmptyString => acc
  | String c r => parse_digits (acc * 10 + (Z.of_nat (nat_of_ascii c) - 48)) r
  end.

Definition parse_int (s : string) : Z :=
  match s with
  | String c r => if Ascii.eqb c "-"%char then - parse_digits 0 r else parse_digits 0 s
  | EmptyString => 0
  end.

(** ** Exhaustive checks behind the order of rendered timestamps

    The Gregorian calendar repeats every 400 years (146097 days); the
    day-to-date conversion is checked on one such era and shifted. *)

Fixpoint check_range (f : Z -> bool) (lo : Z) (k : nat) : bool :=
  match k with
  | O => true
  | S k' => if f lo then check_range f (lo + 1) k' else false
  end.

Definition cmp_lex (c1 c2 : comparison) : comparison :=
  match c1 with Eq => c2 | c => c end.

Definition date_key (ymd : Z * Z * Z) : Z :=
  let '(y, m, d) := ymd in (y * 100 + m) * 100 + d.

Definition civil_bounds_ok (ymd : Z * Z * Z) : bool :=
  let '(y, m, d) := ymd in
  (0 <=? y) && (y <=? 400) && (1 <=? m) && (m <=? 12) && (1 <=? d) && (d <=? 31).

Fixpoint era_scan (doe prev : Z) (k : nat) : bool :=
  match k with
  | O => true
  | S k' =>
      let c := civil_from_days (doe - 719468) in
      if civil_bounds_ok c && (prev <? date_key c) then era_scan (doe + 1) (date_key c) k'
      else false
  end.

Definition comparison_eqb (c1 c2 : comparison) : bool :=
  match c1, c2 with Eq, Eq | Lt, Lt | Gt, Gt => true | _, _ => false end.

Definition two_digits_ok (a : Z) : bool :=
  Nat.eqb (String.length (pad_left 2 (str_int a))) 2 &&
  check_range (fun b => comparison_eqb
                          (String.compare (pad_left 2 (str_int a)) (pad_left 2 (str_int b)))
                          (Z.compare a b)) 0 100.

Definition four_digits_ok (y : Z) : bool :=
  String.eqb (pad_left 4 (str_int y)) (pad_left 2 (str_int (y / 100)) ++ pad_left 2 (str_int (y mod 100))).

(** ** Statistics: [afficher_statistiques(df)] *)

(** [Series.min()] / [Series.max()] on the [timestamp] column (object dtype):
    a reduction with Python's [<] on [str]. *)
Definition series_min (l : list string) : option string :=
  match l with
  | [] => None
  | x :: r => Some (fold_left (fun m y => if String.ltb y m then y else m) r x)
  end.

Definition series_max (l : list string) : option string :=
  match l with
  | [] => None
  | x :: r => Some (fold_left (fun m y => if String.ltb m y then y else m) r x)
  end.

Fixpoint count_str (k : string) (l : list string) : nat :=
  match l with
  | [] => O
  | x :: r => if String.eqb x k then S (count_str k r) else count_str k r
  end.

(** Distinct values in order of first appearance ([Series.unique()]). *)
Fixpoint uniques (l : list string) : list string :=
  match l with
  | [] => []
  | x :: r => x :: filter (fun y => negb (String.eqb y x)) (uniques r)
  end.

Definition value_counts_raw (col : list string) : list (string * nat) :=
  map (fun k => (k, count_str k col)) (uniques col).

(** [Series.value_counts()] sorts the counts in descending order; the order
    among equal counts is left to the sort, a parameter [sc] here. *)
Definition counts_contract (sc : list (string * nat) -> list (string * nat)) : Prop :=
  forall l, Permutation l (sc l) /\ Sorted (fun a b => (snd b <= snd a)%nat) (sc l).

Definition value_counts (sc : list (string * nat) -> list (string * nat))
    (col : list string) : list (string * nat) :=
  sc (value_counts_raw col).

(** What the function prints, except the amount figures (sum, mean, median
    of a float column) and the percentages, which are float formatting. *)
Record Stats := mkStats {
  nb_transactions : nat;
  periode : option (string * string);
  par_ville : list (string * nat);
  par_type : list (string * nat);
  par_operateur : list (string * nat)
}.

Definition statistiques (sc : list (string * nat) -> list (string * nat))
    (df : list Transaction) : Stats :=
  let ts := map timestamp df in
  {| nb_transactions := List.length df;
     periode := match series_min ts, series_max ts with
                | Some a, Some b => Some (a, b)
                | _, _ => None
                end;
     par_ville := value_counts sc (map city df);
     par_type := value_counts sc (map transaction_type df);
     par_operateur := value_counts sc (map operator df) |}.

(** A counts sorter satisfying the contract: insertion by descending count. *)
Fixpoint ins_count (x : string * nat) (l : list (string * nat)) : list (string * nat) :=
  match l with
  | [] => [x]
  | y :: r => if Nat.leb (snd y) (snd x) then x :: y :: r else y :: ins_count x r
  end.

Definition sort_counts (l : list (string * nat)) : list (string * nat) :=
  fold_right ins_count [] l.

(** ** Reading the export back: Python's [str.split(sep)] *)

Fixpoint split_on (c : ascii) (s : string) : list string :=
  match s with
  | EmptyString => [""]
  | String d r =>
      if Ascii.eqb d c then "" :: split_on c r
      else match split_on c r with
           | h :: t => String d h :: t
           | [] => [String d ""]
           end
  end.

Definition csv_fields (as_int : bool) (t : Transaction) : list string :=
  [transaction_id t; timestamp t; user_id t; render_amount as_int (amount t);
   city t; transaction_type t; operator t; status t].

Definition header_fields : list string :=
  ["transaction_id"; "timestamp"; "user_id"; "amount"; "city";
   "transaction_type"; "operator"; "status"].

Definition sep_free (s : string) : bool :=
  Nat.eqb (count_char comma s) 0 && Nat.eqb (count_char lf s) 0 &&
  Nat.eqb (count_char dquote s) 0.

(** Every bound of [MONTANT_RANGES] is below 2^53 in magnitude, the range
    where [render_amount] is the rendering pandas writes. *)
Definition ranges_exact (cfg : Config) : bool :=
  forallb (fun e => let '(mn, mx) := snd e in (Z.abs mn <? 2 ^ 53) && (Z.abs mx <? 2 ^ 53))
    (MONTANT_RANGES cfg).

(** ** Further concrete instances *)

(** [TRANSACTION_TYPES] with a zero weight for ['deposit']. *)
Definition config_no_deposit : Config :=
  mkConfig (VILLES config0)
    [("transfer", 50 # 100); ("payment", 30 # 100);
     ("withdrawal", 20 # 100); ("deposit", 0 # 1)]
    (OPERATEURS config0) (MONTANT_RANGES config0).

Definition no_deposit_run := generer_batch_transactions config_no_deposit rng_demo clock_demo
  insertion_sort_stable 3 world0.

(** * Properties *)

(** ** The monad *)

Lemma bind_inr {A B} (c : M A) (f : A -> M B) w y w' :
  bind c f w = inr (y, w') -> exists x w1, c w = inr (x, w1) /\ f x w1 = inr (y, w').
Proof. unfold bind. destruct (c w) as [e|[x w1]]; [discriminate | eauto]. Qed.

Lemma bind_inl {A B} (c : M A) (f : A -> M B) w e :
  c w = inl e -> bind c f w = inl e.
Proof. unfold bind. intros ->. reflexivity. Qed.

Lemma ret_inr {A} (x y : A) w w' : ret x w = inr (y, w') -> x = y /\ w = w'.
Proof. unfold ret. intros H. injection H. auto. Qed.

Ltac inv_bind H :=
  let x := fresh "x" in let w := fresh "w" in let Hc := fresh "Hc" in
  apply bind_inr in H as (x & w & Hc & H).

Ltac inv_ret H := let E1 := fresh "E" in let E2 := fresh "E" in
  apply ret_inr in H as [E1 E2]; subst.

(** ** Comparisons on Q *)

Lemma qltb_true x y : qltb x y = true <-> (x < y)%Q.
Proof.
  unfold qltb. rewrite negb_true_iff. split; intros H.
  - apply Qnot_le_lt. intros Hle. apply Qle_bool_iff in Hle. congruence.
  - destruct (Qle_bool y x) eqn:E; [|reflexivity].
    apply Qle_bool_iff in E. exfalso. apply (Qlt_not_le _ _ H E).
Qed.

Lemma qltb_false x y : qltb x y = false <-> (y <= x)%Q.
Proof.
  unfold qltb. rewrite negb_false_iff. apply Qle_bool_iff.
Qed.

(** ** Primitive draws *)

Section Draws.
Variable rng : Rng.
Variable clk : Clock.

Lemma np_choice_in a p w x w' :
  np_choice rng a p w = inr (x, w') -> In x a.
Proof.
  unfold np_choice. destruct a as [|a0 ar]; [discriminate|].
  destruct (negb _); [discriminate|].
  destruct (existsb _ _); [discriminate|].
  destruct (qltb _ _); [discriminate|].
  intros H. inv_bind H.
  destruct (nth_error _ _) eqn:En; [|discriminate].
  inv_ret H. eapply nth_error_In; eauto.
Qed.

Lemma py_choice_in l w x w' :
  py_choice rng l w = inr (x, w') -> In x l.
Proof.
  unfold py_choice. destruct l as [|l0 lr]; [discriminate|].
  intros H. inv_bind H.
  destruct (nth_error _ _) eqn:En; [|discriminate].
  inv_ret H. eapply nth_error_In; eauto.
Qed.

Lemma py_randint_inv a b w x w' :
  py_randint rng a b w = inr (x, w') ->
  x = a + py_randbelow rng (py_calls w) (b + 1 - a) /\ 0 < b + 1 - a.
Proof.
  unfold py_randint. destruct (b + 1 - a <=? 0) eqn:E; [discriminate|].
  intros H. inv_bind H. unfold randbelow in Hc. injection Hc as <- <-.
  inv_ret H. split; [reflexivity | lia].
Qed.

Lemma py_randint_range a b w x w' :
  rng_ok rng -> py_randint rng a b w = inr (x, w') -> a <= x <= b.
Proof.
  intros [_ Hb] H. apply py_randint_inv in H as [-> Hw].
  specialize (Hb (py_calls w) _ Hw). lia.
Qed.

End Draws.

(** ** Amounts *)

Lemma round0_whole x : exists z, round0 x = inject_Z z.
Proof.
  unfold round0. destruct (qltb _ _); [eauto|].
  destruct (qltb _ _); [eauto|]. destruct (Z.even _); eauto.
Qed.

Lemma inject_Z_le_iff a b : (inject_Z a <= inject_Z b)%Q <-> a <= b.
Proof. rewrite Zle_Qle. reflexivity. Qed.

(** Clamping with [max(min_val, min(max_val, x))]. *)
Lemma clamp_range (mn mx : Z) (x : PyNum) :
  mn <= mx ->
  (inject_Z mn <= num_val (py_max (PInt mn) (py_min (PInt mx) x)) <= inject_Z mx)%Q.
Proof.
  intros Hle. unfold py_max, py_min. simpl num_val.
  destruct (qltb (num_val x) (inject_Z mx)) eqn:E1.
  - apply qltb_true in E1.
    destruct (qltb (inject_Z mn) (num_val x)) eqn:E2.
    + apply qltb_true in E2. split; apply Qlt_le_weak; assumption.
    + simpl. split; [apply Qle_refl | apply inject_Z_le_iff; exact Hle].
  - simpl num_val. destruct (qltb (inject_Z mn) (inject_Z mx)) eqn:E2; simpl;
      split; try apply Qle_refl; apply inject_Z_le_iff; lia.
Qed.

Lemma clamp_whole (mn mx z : Z) :
  exists r, num_val (py_max (PInt mn) (py_min (PInt mx) (PFloat (inject_Z z)))) = inject_Z r.
Proof.
  unfold py_max, py_min. simpl num_val.
  destruct (qltb (inject_Z z) (inject_Z mx)); simpl;
    destruct (qltb _ _); simpl; eauto.
Qed.

Lemma generer_montant_inv cfg rng t w a w' :
  generer_montant cfg rng t w = inr (a, w') ->
  exists mn mx m, lookup t (MONTANT_RANGES cfg) = Some (mn, mx) /\
    a = py_max (PInt mn) (py_min (PInt mx) (PFloat (round0 m))).
Proof.
  unfold generer_montant. destruct (lookup t _) as [[mn mx]|]; [|discriminate].
  intros H. inv_bind H. inv_ret H. eauto.
Qed.

Lemma config0_ranges_ok t mn mx :
  lookup t (MONTANT_RANGES config0) = Some (mn, mx) -> mn <= mx.
Proof.
  simpl. repeat (destruct (String.eqb _ _); [intros H; injection H as <- <-; lia|]).
  discriminate.
Qed.

(** ** One transaction *)

Lemma generer_transaction_inv cfg rng clk w tr w' :
  generer_transaction cfg rng clk w = inr (tr, w') ->
  In (transaction_type tr) (map fst (TRANSACTION_TYPES cfg)) /\
  (exists mn mx m, lookup (transaction_type tr) (MONTANT_RANGES cfg) = Some (mn, mx) /\
     amount tr = py_max (PInt mn) (py_min (PInt mx) (PFloat (round0 m)))) /\
  In (city tr) (VILLES cfg) /\
  In (operator tr) (OPERATEURS cfg) /\
  (exists wu wu', generer_user_id rng wu = inr (user_id tr, wu')) /\
  (exists k suffix ws ws',
     transaction_id tr = make_transaction_id (py_int (time_time clk k * 1000)%Q) suffix /\
     py_randint rng 1000 9999 ws = inr (suffix, ws')) /\
  status tr = "completed".
Proof.
  unfold generer_transaction. intros H.
  inv_bind H. inv_bind H. inv_bind H. inv_bind H. inv_bind H.
  inv_bind H. inv_bind H. inv_bind H. inv_ret H. simpl.
  unfold time_m in Hc5. injection Hc5 as <- <-.
  split; [eapply np_choice_in; eauto|].
  split; [eapply generer_montant_inv; eauto|].
  split; [eapply py_choice_in; eauto|].
  split; [eapply py_choice_in; eauto|].
  split; [eauto|].
  split; [eauto 6|reflexivity].
Qed.

(** ** The batch *)

Lemma batch_loop_in cfg rng clk base k w l w' :
  batch_loop cfg rng clk base k w = inr (l, w') ->
  forall t, In t l ->
  exists t0 w1 w1' off w2 w2',
    generer_transaction cfg rng clk w1 = inr (t0, w1') /\
    py_randint rng 0 (7 * 24) w2 = inr (off, w2') /\
    t = set_timestamp t0 (strftime (base + off * HOUR_US)).
Proof.
  revert w l. induction k as [|k IH]; simpl; intros w l H t Ht.
  - inv_ret H. destruct Ht.
  - inv_bind H. inv_bind H. inv_bind H. inv_bind H. inv_ret H.
    unfold dt_add in Hc1. destruct (dt_valid _); [|discriminate].
    inv_ret Hc1. destruct Ht as [<- | Ht].
    + do 6 eexists. split; [eassumption|]. split; [eassumption|reflexivity].
    + eapply IH; eauto.
Qed.

Lemma collect_inv cfg rng clk n w l w' :
  collect_transactions cfg rng clk n w = inr (l, w') ->
  exists w1, batch_loop cfg rng clk (datetime_now clk (clock_calls w) - 7 * DAY_US) n w1
             = inr (l, w').
Proof.
  unfold collect_transactions. intros H. inv_bind H. inv_bind H.
  unfold now_m in Hc. injection Hc as <- <-.
  unfold dt_add in Hc0. destruct (dt_valid _); [|discriminate].
  inv_ret Hc0. replace (datetime_now clk (clock_calls w) - 7 * DAY_US)
    with (datetime_now clk (clock_calls w) + - (7 * DAY_US)) by lia. eauto.
Qed.

Lemma batch_inv cfg rng clk sv n w df w' :
  generer_batch_transactions cfg rng clk sv n w = inr (df, w') ->
  exists pre, collect_transactions cfg rng clk n w = inr (pre, w') /\
              pre <> [] /\ df = sv pre.
Proof.
  unfold generer_batch_transactions. intros H. inv_bind H.
  destruct x as [|t r]; [discriminate|]. inv_ret H.
  exists (t :: r). repeat split; auto. discriminate.
Qed.

Lemma batch_in cfg rng clk sv n w df w' :
  sort_contract sv ->
  generer_batch_transactions cfg rng clk sv n w = inr (df, w') ->
  forall t, In t df ->
  exists t0 w1 w1' off w2 w2',
    generer_transaction cfg rng clk w1 = inr (t0, w1') /\
    py_randint rng 0 (7 * 24) w2 = inr (off, w2') /\
    t = set_timestamp t0
          (strftime (datetime_now clk (clock_calls w) - 7 * DAY_US + off * HOUR_US)).
Proof.
  intros Hs H t Ht. apply batch_inv in H as (pre & Hc & _ & ->).
  apply collect_inv in Hc as [w1 Hl].
  destruct (Hs pre) as [Hp _].
  apply (Permutation_in _ (Permutation_sym Hp)) in Ht.
  eapply batch_loop_in; eauto.
Qed.

(** ** The sorting instances meet the contract *)

Lemma ins_perm f x l : Permutation (x :: l) (ins f x l).
Proof.
  induction l as [|y r IH]; simpl; [reflexivity|].
  destruct (f x y); [reflexivity|].
  transitivity (y :: x :: r); [apply perm_swap|]. constructor. exact IH.
Qed.

Lemma ins_sorted f x l :
  (forall a b, f a b = true -> ts_le a b) ->
  (forall a b, f a b = false -> ts_le b a) ->
  Sorted ts_le l -> Sorted ts_le (ins f x l).
Proof.
  intros Ht Hf. induction l as [|y r IH]; simpl; intros Hs.
  - repeat constructor.
  - destruct (f x y) eqn:E.
    + constructor; [exact Hs | constructor; apply Ht; exact E].
    + inversion Hs as [|? ? Hr Hh]; subst. constructor; [apply IH; exact Hr|].
      destruct r as [|z r']; simpl.
      * constructor. apply Hf. exact E.
      * destruct (f x z); constructor; [apply Hf; exact E|].
        inversion Hh; assumption.
Qed.

Lemma fold_ins_contract f :
  (forall a b, f a b = true -> ts_le a b) ->
  (forall a b, f a b = false -> ts_le b a) ->
  sort_contract (fold_right (ins f) []).
Proof.
  intros Ht Hf l. induction l as [|x r [IHp IHs]]; simpl.
  - split; constructor.
  - split.
    + rewrite <- ins_perm. constructor. exact IHp.
    + apply ins_sorted; assumption.
Qed.

Lemma string_leb_not s1 s2 : String.leb s1 s2 = false -> String.leb s2 s1 = true.
Proof.
  intros H. destruct (String.leb_total s1 s2) as [E|E]; [congruence | exact E].
Qed.

Lemma insertion_sort_stable_contract : sort_contract insertion_sort_stable.
Proof.
  apply fold_ins_contract; unfold ts_leb, ts_le; intros a b H.
  - exact H.
  - apply string_leb_not. exact H.
Qed.

Lemma sorted_adjacent {A} (R : A -> A -> Prop) (l : list A) (d : A) :
  Sorted R l -> forall i, (S i < List.length l)%nat -> R (nth i l d) (nth (S i) l d).
Proof.
  induction l as [|x r IH]; simpl; intros Hs i Hi; [lia|].
  inversion Hs as [|? ? Hr Hh]; subst.
  destruct i as [|i].
  - destruct r as [|y r']; simpl in Hi; [lia|]. inversion Hh; assumption.
  - apply IH; [exact Hr | simpl in Hi; lia].
Qed.

Lemma demo_run_eq : demo_run = inr (demo_df, demo_world).
Proof. vm_compute. reflexivity. Qed.

(** * Claims *)

(** C1: every transaction of a batch carries an amount inside the
    [MONTANT_RANGES] bounds of its [transaction_type], both inclusive, and
    that amount is a whole number, whatever the log-normal draws are. *)
Theorem amount_within_type_range rng clk sv n w df w' :
  sort_contract sv ->
  generer_batch_transactions config0 rng clk sv n w = inr (df, w') ->
  forall t, In t df ->
  exists mn mx,
    lookup (transaction_type t) (MONTANT_RANGES config0) = Some (mn, mx) /\
    (inject_Z mn <= num_val (amount t) <= inject_Z mx)%Q /\
    exists z, num_val (amount t) = inject_Z z.
Proof.
  intros Hs H t Ht.
  destruct (batch_in _ _ _ _ _ _ _ _ Hs H t Ht)
    as (t0 & w1 & w1' & off & w2 & w2' & Hg & _ & ->).
  apply generer_transaction_inv in Hg as (_ & (mn & mx & m & Hl & Ha) & _).
  simpl. exists mn, mx. split; [exact Hl|]. rewrite Ha. split.
  - apply clamp_range. eapply config0_ranges_ok; eauto.
  - destruct (round0_whole m) as [z ->]. apply clamp_whole.
Qed.

Lemma amount_within_type_range_witness :
  sort_contract insertion_sort_stable /\
  demo_run = inr (demo_df, demo_world) /\ In demo_t0 demo_df /\
  exists mn mx,
    lookup (transaction_type demo_t0) (MONTANT_RANGES config0) = Some (mn, mx) /\
    (inject_Z mn <= num_val (amount demo_t0) <= inject_Z mx)%Q /\
    exists z, num_val (amount demo_t0) = inject_Z z.
Proof.
  split; [apply insertion_sort_stable_contract|].
  split; [vm_compute; reflexivity|].
  split; [apply nth_In, Nat.ltb_lt; vm_compute; reflexivity|].
  refine (amount_within_type_range rng_demo clock_demo insertion_sort_stable 3
            world0 demo_df demo_world insertion_sort_stable_contract
            ltac:(vm_compute; reflexivity) demo_t0
            ltac:(apply nth_In, Nat.ltb_lt; vm_compute; reflexivity)).
Defined.

(** C2: the DataFrame returned by [generer_batch_transactions] is ordered by
    its [timestamp] strings: every adjacent pair satisfies
    [timestamp[i] <= timestamp[i+1]]. *)
Theorem batch_sorted_by_timestamp cfg rng clk sv n w df w' :
  sort_contract sv ->
  generer_batch_transactions cfg rng clk sv n w = inr (df, w') ->
  forall i d, (S i < List.length df)%nat ->
  String.leb (timestamp (nth i df d)) (timestamp (nth (S i) df d)) = true.
Proof.
  intros Hs H i d Hi. apply batch_inv in H as (pre & _ & _ & ->).
  destruct (Hs pre) as [_ Hsorted].
  exact (sorted_adjacent ts_le _ d Hsorted i Hi).
Qed.

Lemma batch_sorted_by_timestamp_witness :
  (S 0 < List.length demo_df)%nat /\
  String.leb (timestamp (nth 0 demo_df demo_tx)) (timestamp (nth 1 demo_df demo_tx)) = true.
Proof.
  split; [apply Nat.ltb_lt; vm_compute; reflexivity|].
  apply (batch_sorted_by_timestamp config0 rng_demo clock_demo insertion_sort_stable 3
           world0 demo_df demo_world).
  - apply insertion_sort_stable_contract.
  - vm_compute. reflexivity.
  - apply Nat.ltb_lt. vm_compute. reflexivity.
Defined.

(** ** Timestamps of a batch *)

Lemma batch_offsets rng clk cfg sv n w df w' :
  rng_ok rng -> sort_contract sv ->
  generer_batch_transactions cfg rng clk sv n w = inr (df, w') ->
  forall t, In t df ->
  exists k, 0 <= k <= 7 * 24 /\
    timestamp t = strftime (datetime_now clk (clock_calls w) - 7 * DAY_US + k * HOUR_US).
Proof.
  intros Hr Hs H t Ht.
  destruct (batch_in _ _ _ _ _ _ _ _ Hs H t Ht)
    as (t0 & w1 & w1' & off & w2 & w2' & _ & Ho & ->).
  exists off. split; [eapply py_randint_range; eauto|reflexivity].
Qed.

(** C5: every timestamp of a batch is the rendering of
    [window_start + k hours] with [0 <= k <= 7*24], where [window_start] is
    [datetime.now() - 7 days] read once when the batch starts; that instant
    lies in [[window_start, window_start + 7 days]]. *)
Theorem timestamps_within_window cfg rng clk sv n w df w' :
  rng_ok rng -> sort_contract sv ->
  generer_batch_transactions cfg rng clk sv n w = inr (df, w') ->
  let window_start := datetime_now clk (clock_calls w) - 7 * DAY_US in
  forall t, In t df ->
  exists k, 0 <= k <= 7 * 24 /\
    timestamp t = strftime (window_start + k * HOUR_US) /\
    window_start <= window_start + k * HOUR_US <= window_start + 7 * DAY_US.
Proof.
  intros Hr Hs H ws t Ht.
  destruct (batch_offsets _ _ _ _ _ _ _ _ Hr Hs H t Ht) as (k & Hk & Ht').
  exists k. split; [exact Hk|]. split; [exact Ht'|].
  unfold HOUR_US, DAY_US, US. lia.
Qed.

Lemma rng_demo_ok : rng_ok rng_demo.
Proof.
  split.
  - intros k. simpl. destruct (Nat.even k); split; unfold Qle, Qlt; simpl; lia.
  - intros k m Hm. simpl. apply Z.mod_pos_bound. exact Hm.
Qed.

Lemma timestamps_within_window_witness :
  rng_ok rng_demo /\ sort_contract insertion_sort_stable /\
  demo_run = inr (demo_df, demo_world) /\ In demo_t0 demo_df /\
  exists k, 0 <= k <= 7 * 24 /\
    timestamp demo_t0 =
      strftime (datetime_now clock_demo (clock_calls world0) - 7 * DAY_US + k * HOUR_US) /\
    datetime_now clock_demo (clock_calls world0) - 7 * DAY_US <=
      datetime_now clock_demo (clock_calls world0) - 7 * DAY_US + k * HOUR_US <=
      datetime_now clock_demo (clock_calls world0) - 7 * DAY_US + 7 * DAY_US.
Proof.
  split; [apply rng_demo_ok|]. split; [apply insertion_sort_stable_contract|].
  split; [vm_compute; reflexivity|].
  split; [apply nth_In, Nat.ltb_lt; vm_compute; reflexivity|].
  refine (timestamps_within_window config0 rng_demo clock_demo insertion_sort_stable 3
            world0 demo_df demo_world rng_demo_ok insertion_sort_stable_contract
            ltac:(vm_compute; reflexivity) demo_t0
            ltac:(apply nth_In, Nat.ltb_lt; vm_compute; reflexivity)).
Defined.

Lemma div_US_shift u k : (u + k * HOUR_US) / US = u / US + k * 3600.
Proof.
  unfold HOUR_US. replace (k * (3600 * US)) with ((k * 3600) * US) by ring.
  apply Z.div_add. unfold US. lia.
Qed.

Lemma dt_minute_shift u k : dt_minute (u + k * HOUR_US) = dt_minute u.
Proof.
  unfold dt_minute. rewrite div_US_shift. rewrite Z.mod_add by lia. reflexivity.
Qed.

Lemma dt_second_shift u k : dt_second (u + k * HOUR_US) = dt_second u.
Proof.
  unfold dt_second. rewrite div_US_shift.
  replace (k * 3600) with ((k * 60) * 60) by ring.
  rewrite Z.mod_add by lia. reflexivity.
Qed.

Lemma batch_timestamps_in_grid rng clk cfg sv n w df w' :
  rng_ok rng -> sort_contract sv ->
  generer_batch_transactions cfg rng clk sv n w = inr (df, w') ->
  incl (map timestamp df)
       (map (fun k => strftime (datetime_now clk (clock_calls w) - 7 * DAY_US
                                + Z.of_nat k * HOUR_US)) (seq 0 169)).
Proof.
  intros Hr Hs H s Hin. apply in_map_iff in Hin as (t & <- & Ht).
  destruct (batch_offsets _ _ _ _ _ _ _ _ Hr Hs H t Ht) as (k & Hk & ->).
  apply in_map_iff. exists (Z.to_nat k). split.
  - rewrite Z2Nat.id by lia. reflexivity.
  - apply in_seq. lia.
Qed.

(** C10: all timestamps of a batch carry the minute and second of the one
    anchor [window_start], and a batch holds at most 169 distinct
    timestamps. *)
Theorem batch_timestamps_share_anchor cfg rng clk sv n w df w' :
  rng_ok rng -> sort_contract sv ->
  generer_batch_transactions cfg rng clk sv n w = inr (df, w') ->
  let window_start := datetime_now clk (clock_calls w) - 7 * DAY_US in
  (forall t, In t df ->
     exists u, timestamp t = strftime u /\
       dt_minute u = dt_minute window_start /\ dt_second u = dt_second window_start) /\
  (forall distinct, NoDup distinct -> incl distinct (map timestamp df) ->
     (List.length distinct <= 169)%nat).
Proof.
  intros Hr Hs H ws. split.
  - intros t Ht. destruct (batch_offsets _ _ _ _ _ _ _ _ Hr Hs H t Ht) as (k & _ & ->).
    eexists. split; [reflexivity|].
    split; [apply dt_minute_shift | apply dt_second_shift].
  - intros l Hnd Hincl.
    pose proof (batch_timestamps_in_grid _ _ _ _ _ _ _ _ Hr Hs H) as Hg.
    pose proof (NoDup_incl_length Hnd (incl_tran Hincl Hg)) as Hl.
    rewrite length_map, length_seq in Hl. exact Hl.
Qed.

Lemma batch_timestamps_share_anchor_witness :
  rng_ok rng_demo /\ sort_contract insertion_sort_stable /\
  demo_run = inr (demo_df, demo_world) /\ In demo_t0 demo_df /\
  (exists u, timestamp demo_t0 = strftime u /\
     dt_minute u = dt_minute (datetime_now clock_demo (clock_calls world0) - 7 * DAY_US) /\
     dt_second u = dt_second (datetime_now clock_demo (clock_calls world0) - 7 * DAY_US)) /\
  (List.length (nodup string_dec (map timestamp demo_df)) <= 169)%nat.
Proof.
  split; [apply rng_demo_ok|]. split; [apply insertion_sort_stable_contract|].
  split; [vm_compute; reflexivity|].
  split; [apply nth_In, Nat.ltb_lt; vm_compute; reflexivity|].
  pose proof (batch_timestamps_share_anchor config0 rng_demo clock_demo
                insertion_sort_stable 3 world0 demo_df demo_world rng_demo_ok
                insertion_sort_stable_contract ltac:(vm_compute; reflexivity)) as [H1 H2].
  split.
  - apply H1. apply nth_In, Nat.ltb_lt; vm_compute; reflexivity.
  - apply H2; [apply NoDup_nodup|].
    exact (fun x Hx => proj1 (nodup_In string_dec (map timestamp demo_df) x) Hx).
Defined.


(** ** Decimal renderings *)

Lemma string_length_app a b : String.length (a ++ b) = (String.length a + String.length b)%nat.
Proof. induction a as [|c a IH]; cbn [String.length append]; [reflexivity | rewrite IH; reflexivity]. Qed.

Lemma all_digits_app a b : all_digits (a ++ b) = (all_digits a && all_digits b)%bool.
Proof.
  induction a as [|c a IH]; cbn [all_digits append]; [reflexivity|].
  rewrite IH. apply andb_assoc.
Qed.

Lemma count_char_app c a b : count_char c (a ++ b) = (count_char c a + count_char c b)%nat.
Proof.
  induction a as [|d a IH]; cbn [count_char append]; [reflexivity|].
  rewrite IH. destruct (Ascii.eqb c d); reflexivity.
Qed.

Lemma nat_of_digit_char d : 0 <= d < 10 -> nat_of_ascii (digit_char d) = (48 + Z.to_nat d)%nat.
Proof. intros Hd. unfold digit_char. apply nat_ascii_embedding. lia. Qed.

Lemma digit_char_is_digit d : 0 <= d < 10 -> is_digit (digit_char d) = true.
Proof.
  intros Hd. unfold is_digit. rewrite nat_of_digit_char by exact Hd.
  apply andb_true_iff. split; apply Nat.leb_le; lia.
Qed.

Lemma digits_aux_S f n :
  digits_aux (S f) n =
  if n <? 10 then String (digit_char n) EmptyString
  else digits_aux f (n / 10) ++ String (digit_char (n mod 10)) EmptyString.
Proof. reflexivity. Qed.

Lemma digits_aux_all_digits f n : 0 <= n -> all_digits (digits_aux f n) = true.
Proof.
  revert n. induction f as [|f IH]; intros n Hn; [reflexivity|].
  rewrite digits_aux_S. destruct (n <? 10) eqn:E.
  - apply Z.ltb_lt in E. cbn [all_digits]. rewrite digit_char_is_digit by lia. reflexivity.
  - rewrite all_digits_app, IH by (apply Z.div_pos; lia). cbn [all_digits].
    rewrite digit_char_is_digit by (apply Z.mod_pos_bound; lia). reflexivity.
Qed.

Lemma pow10_succ k : 10 ^ Z.of_nat (S k) = 10 * 10 ^ Z.of_nat k.
Proof. rewrite Nat2Z.inj_succ, Z.pow_succ_r by lia. reflexivity. Qed.

Lemma pow10_pos k : 1 <= 10 ^ Z.of_nat k.
Proof.
  induction k as [|k IH]; [cbn; lia|]. rewrite pow10_succ. lia.
Qed.

Lemma digits_aux_length f n k :
  10 ^ Z.of_nat k <= n < 10 ^ Z.of_nat (S k) -> (k < f)%nat ->
  String.length (digits_aux f n) = S k.
Proof.
  revert f n. induction k as [|k IH]; intros f n Hn Hf;
    (destruct f as [|f]; [lia|]); rewrite digits_aux_S.
  - change (10 ^ Z.of_nat 0) with 1 in Hn. change (10 ^ Z.of_nat 1) with 10 in Hn.
    destruct (n <? 10) eqn:E; [reflexivity|]. apply Z.ltb_ge in E. lia.
  - rewrite (pow10_succ (S k)), (pow10_succ k) in Hn.
    pose proof (pow10_pos k) as Hp.
    destruct (n <? 10) eqn:E; [apply Z.ltb_lt in E; lia|].
    rewrite string_length_app. cbn [String.length].
    rewrite (IH f (n / 10)); [lia| |lia].
    rewrite (pow10_succ k). split.
    + apply Z.div_le_lower_bound; lia.
    + apply Z.div_lt_upper_bound; lia.
Qed.

Lemma digits_length n k :
  10 ^ Z.of_nat k <= n < 10 ^ Z.of_nat (S k) -> String.length (digits n) = S k.
Proof.
  intros Hn. unfold digits. apply digits_aux_length; [exact Hn|].
  pose proof (pow10_pos k) as Hp.
  assert (H2 : 2 ^ Z.of_nat k <= n).
  { apply Z.le_trans with (10 ^ Z.of_nat k); [|lia].
    apply Z.pow_le_mono_l. lia. }
  apply Z.log2_le_pow2 in H2; lia.
Qed.

Lemma parse_digits_app acc a b : parse_digits acc (a ++ b) = parse_digits (parse_digits acc a) b.
Proof.
  revert acc. induction a as [|c a IH]; intros acc; cbn [append parse_digits]; [reflexivity|].
  apply IH.
Qed.

Lemma parse_digits_aux f n :
  0 <= n < 10 ^ Z.of_nat f -> parse_digits 0 (digits_aux f n) = n.
Proof.
  revert n. induction f as [|f IH]; intros n Hn.
  - change (10 ^ Z.of_nat 0) with 1 in Hn. cbn. lia.
  - rewrite digits_aux_S. destruct (n <? 10) eqn:E.
    + apply Z.ltb_lt in E. cbn [parse_digits]. rewrite nat_of_digit_char by lia. lia.
    + rewrite parse_digits_app, IH.
      * cbn [parse_digits]. rewrite nat_of_digit_char by (apply Z.mod_pos_bound; lia).
        rewrite Nat2Z.inj_add, Z2Nat.id by (apply Z.mod_pos_bound; lia).
        pose proof (Z.div_mod n 10). lia.
      * rewrite pow10_succ in Hn. split; [apply Z.div_pos; lia|].
        apply Z.div_lt_upper_bound; lia.
Qed.

Lemma parse_digits_digits n : 0 <= n -> parse_digits 0 (digits n) = n.
Proof.
  intros Hn. unfold digits. apply parse_digits_aux. split; [exact Hn|].
  destruct (Z.eq_dec n 0) as [->|Hnz]; [cbn; lia|].
  destruct (Z.log2_spec n) as [_ Hlt]; [lia|].
  apply Z.lt_le_trans with (2 ^ Z.succ (Z.log2 n)); [exact Hlt|].
  rewrite Nat2Z.inj_succ, Z2Nat.id by apply Z.log2_nonneg.
  apply Z.pow_le_mono_l. lia.
Qed.

Lemma is_digit_not_minus c : is_digit c = true -> Ascii.eqb c "-"%char = false.
Proof. destruct (Ascii.eqb_spec c "-"%char) as [->|]; [discriminate | reflexivity]. Qed.

Lemma is_digit_not_underscore c : is_digit c = true -> Ascii.eqb "_"%char c = false.
Proof. destruct (Ascii.eqb_spec "_"%char c) as [<-|]; [discriminate | reflexivity]. Qed.

Lemma digits_all_digits n : 0 <= n -> all_digits (digits n) = true.
Proof. intros Hn. apply digits_aux_all_digits. exact Hn. Qed.

Lemma parse_int_digits s : all_digits s = true -> parse_int s = parse_digits 0 s.
Proof.
  destruct s as [|c r]; [reflexivity|]. cbn [all_digits parse_int].
  intros H. apply andb_true_iff in H as [Hc _]. rewrite is_digit_not_minus by exact Hc.
  reflexivity.
Qed.

Lemma parse_int_str_int n : parse_int (str_int n) = n.
Proof.
  unfold str_int. destruct (n <? 0) eqn:E.
  - apply Z.ltb_lt in E. cbn [append parse_int]. rewrite parse_digits_digits by lia.
    change (Ascii.eqb "-" "-") with true. cbv iota. lia.
  - apply Z.ltb_ge in E. rewrite parse_int_digits by (apply digits_all_digits; exact E).
    apply parse_digits_digits. exact E.
Qed.

Lemma str_int_inj a b : str_int a = str_int b -> a = b.
Proof.
  intros H. rewrite <- (parse_int_str_int a), <- (parse_int_str_int b), H. reflexivity.
Qed.

Lemma all_digits_no_underscore s : all_digits s = true -> count_char "_"%char s = O.
Proof.
  induction s as [|c r IH]; cbn [all_digits count_char]; [reflexivity|].
  intros H. apply andb_true_iff in H as [Hc Hr].
  rewrite is_digit_not_underscore by exact Hc. apply IH. exact Hr.
Qed.

Lemma str_int_no_underscore n : count_char "_"%char (str_int n) = O.
Proof.
  unfold str_int. destruct (n <? 0) eqn:E.
  - apply Z.ltb_lt in E. cbn [append count_char].
    change (Ascii.eqb "_" "-") with false. cbv iota.
    apply all_digits_no_underscore, digits_all_digits. lia.
  - apply Z.ltb_ge in E. apply all_digits_no_underscore, digits_all_digits. exact E.
Qed.

Lemma split_at_underscore a b c d :
  count_char "_"%char a = O -> count_char "_"%char c = O ->
  a ++ String "_" b = c ++ String "_" d -> a = c /\ b = d.
Proof.
  revert c. induction a as [|x a IH]; intros c Ha Hc H; destruct c as [|y c];
    cbn [append] in H.
  - injection H as ->. auto.
  - injection H as <- _. cbn [count_char] in Hc. discriminate Hc.
  - injection H as -> _. cbn [count_char] in Ha. discriminate Ha.
  - injection H as <- H. cbn [count_char] in Ha, Hc.
    destruct (Ascii.eqb "_" x); [discriminate Ha|].
    destruct (IH c Ha Hc H) as [-> ->]. auto.
Qed.

Lemma make_transaction_id_inj ms1 s1 ms2 s2 :
  make_transaction_id ms1 s1 = make_transaction_id ms2 s2 <-> ms1 = ms2 /\ s1 = s2.
Proof.
  split; [|intros [-> ->]; reflexivity].
  unfold make_transaction_id. cbn [append]. intros H.
  injection H as H. apply split_at_underscore in H as [H1 H2];
    try apply str_int_no_underscore.
  split; apply str_int_inj; assumption.
Qed.

Lemma str_int_nonneg n : 0 <= n -> str_int n = digits n.
Proof. intros Hn. unfold str_int. destruct (n <? 0) eqn:E; [apply Z.ltb_lt in E; lia | reflexivity]. Qed.

Lemma str_int_width n k :
  10 ^ Z.of_nat k <= n < 10 ^ Z.of_nat (S k) ->
  String.length (str_int n) = S k /\ all_digits (str_int n) = true.
Proof.
  intros Hn. pose proof (pow10_pos k). rewrite str_int_nonneg by lia.
  split; [apply digits_length; exact Hn | apply digits_all_digits; lia].
Qed.

(** ** User ids and transaction ids *)

Lemma generer_user_id_inv rng w uid w' :
  generer_user_id rng w = inr (uid, w') ->
  exists p k, In p prefixes /\
    uid = "user_" ++ (p ++ str_int (1000000 + py_randbelow rng k 9000000)).
Proof.
  unfold generer_user_id. intros H. inv_bind H. inv_bind H. inv_ret H.
  apply py_choice_in in Hc.
  apply py_randint_inv in Hc0 as [-> _].
  exists x, (py_calls w0). split; [exact Hc|reflexivity].
Qed.

(** C7: every [user_id] of a batch is ["user_"] followed by one of the five
    prefixes and by the 7-digit rendering of [1000000 + _randbelow(9000000)],
    i.e. of [random.randint(1000000, 9999999)]. *)
Theorem user_id_format cfg rng clk sv n w df w' :
  rng_ok rng -> sort_contract sv ->
  generer_batch_transactions cfg rng clk sv n w = inr (df, w') ->
  forall t, In t df ->
  exists p k num,
    In p prefixes /\
    num = 1000000 + py_randbelow rng k 9000000 /\
    1000000 <= num <= 9999999 /\
    user_id t = "user_" ++ (p ++ str_int num) /\
    String.length (str_int num) = 7%nat /\ all_digits (str_int num) = true.
Proof.
  intros [_ Hb] Hs H t Ht.
  destruct (batch_in _ _ _ _ _ _ _ _ Hs H t Ht)
    as (t0 & w1 & w1' & off & w2 & w2' & Hg & _ & ->).
  apply generer_transaction_inv in Hg as (_ & _ & _ & _ & (wu & wu' & Hu) & _).
  apply generer_user_id_inv in Hu as (p & k & Hp & Hu).
  specialize (Hb k 9000000 ltac:(lia)).
  exists p, k, (1000000 + py_randbelow rng k 9000000).
  split; [exact Hp|]. split; [reflexivity|]. split; [lia|].
  split; [exact Hu|].
  apply str_int_width with (k := 6%nat).
  change (10 ^ Z.of_nat 6) with 1000000. change (10 ^ Z.of_nat 7) with 10000000. lia.
Qed.

Lemma user_id_format_witness :
  rng_ok rng_demo /\ sort_contract insertion_sort_stable /\
  demo_run = inr (demo_df, demo_world) /\ In demo_t0 demo_df /\
  exists p k num,
    In p prefixes /\
    num = 1000000 + py_randbelow rng_demo k 9000000 /\
    1000000 <= num <= 9999999 /\
    user_id demo_t0 = "user_" ++ (p ++ str_int num) /\
    String.length (str_int num) = 7%nat /\ all_digits (str_int num) = true.
Proof.
  split; [apply rng_demo_ok|]. split; [apply insertion_sort_stable_contract|].
  split; [vm_compute; reflexivity|].
  split; [apply nth_In, Nat.ltb_lt; vm_compute; reflexivity|].
  refine (user_id_format config0 rng_demo clock_demo insertion_sort_stable 3
            world0 demo_df demo_world rng_demo_ok insertion_sort_stable_contract
            ltac:(vm_compute; reflexivity) demo_t0
            ltac:(apply nth_In, Nat.ltb_lt; vm_compute; reflexivity)).
Defined.

(** C9: every [transaction_id] of a batch is ["TXN"], the decimal rendering
    of [int(time.time()*1000)] for some clock reading, ["_"], and a 4-digit
    suffix in [1000, 9999]; it contains exactly one underscore. *)
Theorem transaction_id_shape cfg rng clk sv n w df w' :
  rng_ok rng -> sort_contract sv ->
  generer_batch_transactions cfg rng clk sv n w = inr (df, w') ->
  forall t, In t df ->
  exists k ms suffix,
    ms = py_int (time_time clk k * 1000)%Q /\
    1000 <= suffix <= 9999 /\
    transaction_id t = "TXN" ++ (str_int ms ++ ("_" ++ str_int suffix)) /\
    String.length (str_int suffix) = 4%nat /\ all_digits (str_int suffix) = true /\
    count_char "_"%char (transaction_id t) = 1%nat.
Proof.
  intros Hr Hs H t Ht.
  destruct (batch_in _ _ _ _ _ _ _ _ Hs H t Ht)
    as (t0 & w1 & w1' & off & w2 & w2' & Hg & _ & ->).
  apply generer_transaction_inv in Hg
    as (_ & _ & _ & _ & _ & (k & suffix & ws & ws' & Hid & Hsuf) & _).
  apply (py_randint_range rng) in Hsuf; [|exact Hr].
  exists k, (py_int (time_time clk k * 1000)%Q), suffix. cbn [transaction_id set_timestamp].
  rewrite Hid. unfold make_transaction_id.
  split; [reflexivity|]. split; [exact Hsuf|]. split; [reflexivity|].
  destruct (str_int_width suffix 3) as [Hl Hd].
  { change (10 ^ Z.of_nat 3) with 1000. change (10 ^ Z.of_nat 4) with 10000. lia. }
  split; [exact Hl|]. split; [exact Hd|].
  rewrite !count_char_app, !str_int_no_underscore. reflexivity.
Qed.

Lemma transaction_id_shape_witness :
  rng_ok rng_demo /\ sort_contract insertion_sort_stable /\
  demo_run = inr (demo_df, demo_world) /\ In demo_t0 demo_df /\
  exists k ms suffix,
    ms = py_int (time_time clock_demo k * 1000)%Q /\
    1000 <= suffix <= 9999 /\
    transaction_id demo_t0 = "TXN" ++ (str_int ms ++ ("_" ++ str_int suffix)) /\
    String.length (str_int suffix) = 4%nat /\ all_digits (str_int suffix) = true /\
    count_char "_"%char (transaction_id demo_t0) = 1%nat.
Proof.
  split; [apply rng_demo_ok|]. split; [apply insertion_sort_stable_contract|].
  split; [vm_compute; reflexivity|].
  split; [apply nth_In, Nat.ltb_lt; vm_compute; reflexivity|].
  refine (transaction_id_shape config0 rng_demo clock_demo insertion_sort_stable 3
            world0 demo_df demo_world rng_demo_ok insertion_sort_stable_contract
            ltac:(vm_compute; reflexivity) demo_t0
            ltac:(apply nth_In, Nat.ltb_lt; vm_compute; reflexivity)).
Defined.

(** ** Id collisions *)

Lemma batch_ids cfg rng clk sv n w df w' :
  rng_ok rng -> sort_contract sv ->
  generer_batch_transactions cfg rng clk sv n w = inr (df, w') ->
  forall t, In t df ->
  exists k suffix, 1000 <= suffix <= 9999 /\
    transaction_id t = make_transaction_id (py_int (time_time clk k * 1000)%Q) suffix.
Proof.
  intros Hr Hs H t Ht.
  destruct (batch_in _ _ _ _ _ _ _ _ Hs H t Ht)
    as (t0 & w1 & w1' & off & w2 & w2' & Hg & _ & ->).
  apply generer_transaction_inv in Hg
    as (_ & _ & _ & _ & _ & (k & suffix & ws & ws' & Hid & Hsuf) & _).
  exists k, suffix. split; [eapply py_randint_range; eauto | exact Hid].
Qed.

Lemma rng_zero_ok : rng_ok rng_zero.
Proof.
  split; intros; simpl; [split; unfold Qle, Qlt; simpl; lia | lia].
Qed.

(** C6 (as stated: ids are unique within a run) fails: two transactions
    generated in the same millisecond that draw the same suffix share
    their id. *)
Lemma transaction_id_unique_counterexample :
  ~ (forall cfg rng clk sv n w df w',
       rng_ok rng -> sort_contract sv ->
       generer_batch_transactions cfg rng clk sv n w = inr (df, w') ->
       NoDup (map transaction_id df)).
Proof.
  intros H.
  set (r := generer_batch_transactions config0 rng_zero clock_frozen
              insertion_sort_stable 2 world0).
  assert (E : r = inr (result_value [] r, result_world r)) by (vm_compute; reflexivity).
  specialize (H _ _ _ _ _ _ _ _ rng_zero_ok insertion_sort_stable_contract E).
  vm_compute in H. inversion H as [|? ? Hn _]. apply Hn. left. reflexivity.
Qed.

(** C6, amended: two transactions of a batch share their [transaction_id]
    exactly when their millisecond clock readings and their suffixes both
    coincide; nothing else keeps ids apart. *)
Theorem transaction_id_collision cfg rng clk sv n w df w' :
  rng_ok rng -> sort_contract sv ->
  generer_batch_transactions cfg rng clk sv n w = inr (df, w') ->
  forall t1 t2, In t1 df -> In t2 df ->
  exists k1 s1 k2 s2,
    transaction_id t1 = make_transaction_id (py_int (time_time clk k1 * 1000)%Q) s1 /\
    transaction_id t2 = make_transaction_id (py_int (time_time clk k2 * 1000)%Q) s2 /\
    (transaction_id t1 = transaction_id t2 <->
     py_int (time_time clk k1 * 1000)%Q = py_int (time_time clk k2 * 1000)%Q /\ s1 = s2).
Proof.
  intros Hr Hs H t1 t2 H1 H2.
  destruct (batch_ids _ _ _ _ _ _ _ _ Hr Hs H t1 H1) as (k1 & s1 & _ & E1).
  destruct (batch_ids _ _ _ _ _ _ _ _ Hr Hs H t2 H2) as (k2 & s2 & _ & E2).
  exists k1, s1, k2, s2. split; [exact E1|]. split; [exact E2|].
  rewrite E1, E2. apply make_transaction_id_inj.
Qed.

Lemma transaction_id_collision_witness :
  rng_ok rng_zero /\ sort_contract insertion_sort_stable /\
  frozen_run = inr (frozen_df, result_world frozen_run) /\
  In (nth 0 frozen_df demo_tx) frozen_df /\ In (nth 1 frozen_df demo_tx) frozen_df /\
  exists k1 s1 k2 s2,
    transaction_id (nth 0 frozen_df demo_tx) =
      make_transaction_id (py_int (time_time clock_frozen k1 * 1000)%Q) s1 /\
    transaction_id (nth 1 frozen_df demo_tx) =
      make_transaction_id (py_int (time_time clock_frozen k2 * 1000)%Q) s2 /\
    (transaction_id (nth 0 frozen_df demo_tx) = transaction_id (nth 1 frozen_df demo_tx) <->
     py_int (time_time clock_frozen k1 * 1000)%Q = py_int (time_time clock_frozen k2 * 1000)%Q
     /\ s1 = s2).
Proof.
  split; [apply rng_zero_ok|]. split; [apply insertion_sort_stable_contract|].
  split; [vm_compute; reflexivity|].
  split; [apply nth_In, Nat.ltb_lt; vm_compute; reflexivity|].
  split; [apply nth_In, Nat.ltb_lt; vm_compute; reflexivity|].
  refine (transaction_id_collision config0 rng_zero clock_frozen insertion_sort_stable 2
            world0 frozen_df (result_world frozen_run) rng_zero_ok
            insertion_sort_stable_contract ltac:(vm_compute; reflexivity)
            (nth 0 frozen_df demo_tx) (nth 1 frozen_df demo_tx)
            ltac:(apply nth_In, Nat.ltb_lt; vm_compute; reflexivity)
            ltac:(apply nth_In, Nat.ltb_lt; vm_compute; reflexivity)).
Defined.

(** ** Reproducibility *)

Ltac sync H1 H2 :=
  let a1 := fresh "a" in let v1 := fresh "v" in let E1 := fresh "E" in
  let a2 := fresh "a" in let v2 := fresh "v" in let E2 := fresh "E" in
  apply bind_inr in H1 as (a1 & v1 & E1 & H1);
  apply bind_inr in H2 as (a2 & v2 & E2 & H2);
  first
    [ rewrite E1 in E2; injection E2 as <- <-
    | unfold now_m, time_m in E1, E2; injection E1 as _ <-; injection E2 as _ <- ].

Lemma generer_transaction_sync cfg rng clk1 clk2 w t1 w1 t2 w2 :
  generer_transaction cfg rng clk1 w = inr (t1, w1) ->
  generer_transaction cfg rng clk2 w = inr (t2, w2) ->
  drawn_fields t1 = drawn_fields t2 /\ w1 = w2.
Proof.
  unfold generer_transaction. intros H1 H2.
  do 8 sync H1 H2. inv_ret H1. inv_ret H2. split; reflexivity.
Qed.

Lemma dt_add_world t d w x w' : dt_add t d w = inr (x, w') -> w' = w.
Proof. unfold dt_add. destruct (dt_valid _); [|discriminate]. intros H. inv_ret H. reflexivity. Qed.

Lemma batch_loop_sync cfg rng clk1 clk2 b1 b2 k w l1 w1 l2 w2 :
  batch_loop cfg rng clk1 b1 k w = inr (l1, w1) ->
  batch_loop cfg rng clk2 b2 k w = inr (l2, w2) ->
  map drawn_fields l1 = map drawn_fields l2 /\ w1 = w2.
Proof.
  revert w l1 w1 l2 w2. induction k as [|k IH]; simpl; intros w l1 w1 l2 w2 H1 H2.
  - inv_ret H1. inv_ret H2. split; reflexivity.
  - inv_bind H1. inv_bind H2.
    destruct (generer_transaction_sync _ _ _ _ _ _ _ _ _ Hc Hc0) as [Ed <-].
    sync H1 H2.
    inv_bind H1. inv_bind H2.
    apply dt_add_world in Hc1. apply dt_add_world in Hc2. subst.
    inv_bind H1. inv_bind H2.
    destruct (IH _ _ _ _ _ Hc1 Hc2) as [Er <-].
    inv_ret H1. inv_ret H2. simpl. rewrite Er. split; [f_equal; exact Ed | reflexivity].
Qed.

Lemma collect_sync cfg rng clk1 clk2 n w l1 w1 l2 w2 :
  collect_transactions cfg rng clk1 n w = inr (l1, w1) ->
  collect_transactions cfg rng clk2 n w = inr (l2, w2) ->
  map drawn_fields l1 = map drawn_fields l2 /\ w1 = w2.
Proof.
  unfold collect_transactions. intros H1 H2. sync H1 H2.
  inv_bind H1. inv_bind H2.
  apply dt_add_world in Hc. apply dt_add_world in Hc0. subst.
  eapply batch_loop_sync; eauto.
Qed.

(** C3 (as stated: a fixed seed and configuration give byte-identical
    exports) fails: the same draws read at two different wall-clock times
    give different files. *)
Lemma pipeline_reproducible_counterexample :
  ~ (forall cfg rng clk1 clk2 sv n w o1 w1 o2 w2,
       rng_ok rng -> sort_contract sv ->
       run_pipeline cfg rng clk1 sv n w = inr (o1, w1) ->
       run_pipeline cfg rng clk2 sv n w = inr (o2, w2) ->
       o1 = o2).
Proof.
  intros H.
  assert (E1 : export_today = inr (result_value "" export_today, result_world export_today))
    by (vm_compute; reflexivity).
  assert (E2 : export_next_day =
               inr (result_value "" export_next_day, result_world export_next_day))
    by (vm_compute; reflexivity).
  specialize (H _ _ _ _ _ _ _ _ _ _ _ rng_demo_ok insertion_sort_stable_contract E1 E2).
  vm_compute in H. discriminate H.
Qed.

(** C3, amended: with one seed and configuration, two runs make the same
    draws, so in generation order their records agree on every field that
    does not come from the clock ([user_id], [amount], [city],
    [transaction_type], [operator], [status]); [transaction_id] and
    [timestamp] follow the wall clock. *)
Theorem same_seed_same_draws cfg rng clk1 clk2 n w l1 w1 l2 w2 :
  collect_transactions cfg rng clk1 n w = inr (l1, w1) ->
  collect_transactions cfg rng clk2 n w = inr (l2, w2) ->
  map drawn_fields l1 = map drawn_fields l2.
Proof. intros H1 H2. exact (proj1 (collect_sync _ _ _ _ _ _ _ _ _ _ H1 H2)). Qed.

Lemma same_seed_same_draws_witness :
  collect_today = inr (result_value [] collect_today, result_world collect_today) /\
  collect_next_day = inr (result_value [] collect_next_day, result_world collect_next_day) /\
  map drawn_fields (result_value [] collect_today) =
  map drawn_fields (result_value [] collect_next_day).
Proof.
  split; [vm_compute; reflexivity|]. split; [vm_compute; reflexivity|].
  apply (same_seed_same_draws config0 rng_demo clock_demo clock_next_day 3 world0
           (result_value [] collect_today) (result_world collect_today)
           (result_value [] collect_next_day) (result_world collect_next_day));
    vm_compute; reflexivity.
Defined.

(** ** Configuration errors *)

Lemma bind_inr_eq {A B} (c : M A) (f : A -> M B) w x w1 :
  c w = inr (x, w1) -> bind c f w = f x w1.
Proof. unfold bind. intros ->. reflexivity. Qed.

Lemma np_choice_config0_ok rng w :
  rng_ok rng ->
  exists x w', np_choice rng (map fst (TRANSACTION_TYPES config0))
                 (map snd (TRANSACTION_TYPES config0)) w = inr (x, w').
Proof.
  intros [Hu _]. specialize (Hu (np_calls w)).
  unfold np_choice. simpl. unfold bind, np_random_sample_m.
  set (u := np_random_sample rng (np_calls w)) in *. simpl.
  repeat match goal with |- context [Qle_bool ?c u] =>
    let E := fresh "E" in destruct (Qle_bool c u) eqn:E end;
  simpl; unfold ret, raise; eauto.
  all: exfalso; match goal with H : Qle_bool _ _ = true |- _ =>
    apply Qle_bool_iff in H; apply (Qlt_not_le _ 1 (proj2 Hu));
    eapply Qle_trans; [|exact H]; unfold Qle; simpl; lia end.
Qed.

Lemma generer_montant_ok cfg rng t w mn mx :
  lookup t (MONTANT_RANGES cfg) = Some (mn, mx) ->
  exists a w', generer_montant cfg rng t w = inr (a, w').
Proof. intros H. unfold generer_montant. rewrite H. unfold bind, np_lognormal_m, ret. eauto. Qed.

Lemma config0_type_has_range t :
  In t (map fst (TRANSACTION_TYPES config0)) ->
  exists mn mx, lookup t (MONTANT_RANGES config0) = Some (mn, mx).
Proof. simpl. intros [<-|[<-|[<-|[<-|[]]]]]; simpl; eauto. Qed.

Lemma collect_unfold cfg rng clk n w :
  dt_valid (datetime_now clk (clock_calls w) + - (7 * DAY_US)) = true ->
  collect_transactions cfg rng clk n w =
  batch_loop cfg rng clk (datetime_now clk (clock_calls w) + - (7 * DAY_US)) n
    (mkWorld (np_calls w) (py_calls w) (S (clock_calls w))).
Proof.
  intros H. unfold collect_transactions.
  rewrite (bind_inr_eq (now_m clk) _ w (datetime_now clk (clock_calls w))
             (mkWorld (np_calls w) (py_calls w) (S (clock_calls w)))) by reflexivity.
  cbv beta. unfold dt_add. rewrite H. reflexivity.
Qed.

Lemma batch_first_error cfg rng clk sv k w e :
  dt_valid (datetime_now clk (clock_calls w) + - (7 * DAY_US)) = true ->
  generer_transaction cfg rng clk (mkWorld (np_calls w) (py_calls w) (S (clock_calls w)))
    = inl e ->
  generer_batch_transactions cfg rng clk sv (S k) w = inl e.
Proof.
  intros Hv He. unfold generer_batch_transactions. apply bind_inl.
  rewrite collect_unfold by exact Hv. simpl. apply bind_inl. exact He.
Qed.

Lemma np_choice_sum_error rng a p w :
  a <> [] -> List.length p = List.length a ->
  existsb (fun x => qltb x 0) p = false ->
  qltb ATOL (Qabs (qsum p - 1)) = true ->
  np_choice rng a p w = inl (ValueError "probabilities do not sum to 1").
Proof.
  intros Ha Hl Hn Hs. unfold np_choice. destruct a as [|a0 ar]; [congruence|].
  rewrite Hl, Nat.eqb_refl, Hn, Hs. reflexivity.
Qed.

Lemma generer_transaction_no_city cfg rng clk w :
  rng_ok rng ->
  TRANSACTION_TYPES cfg = TRANSACTION_TYPES config0 ->
  MONTANT_RANGES cfg = MONTANT_RANGES config0 ->
  VILLES cfg = [] ->
  generer_transaction cfg rng clk w = inl (IndexError "Cannot choose from an empty sequence").
Proof.
  intros Hr HT HR HV.
  destruct (np_choice_config0_ok rng w Hr) as (x & w1 & Hx).
  pose proof (np_choice_in _ _ _ _ _ _ Hx) as Hin.
  destruct (config0_type_has_range x Hin) as (mn & mx & Hl).
  rewrite <- HR in Hl.
  destruct (generer_montant_ok cfg rng x w1 mn mx Hl) as (a & w2 & Ha).
  unfold generer_transaction. rewrite HT, (bind_inr_eq _ _ _ _ _ Hx).
  rewrite (bind_inr_eq _ _ _ _ _ Ha). rewrite HV. reflexivity.
Qed.

Lemma generer_montant_swapped cfg rng t w mn mx :
  lookup t (MONTANT_RANGES cfg) = Some (mn, mx) -> mx < mn ->
  exists w', generer_montant cfg rng t w = inr (PInt mn, w').
Proof.
  intros Hl Hlt. unfold generer_montant. rewrite Hl.
  unfold bind, np_lognormal_m, ret. eexists. do 2 f_equal.
  unfold py_max, py_min.
  destruct (qltb (num_val (PFloat _)) (num_val (PInt mx))) eqn:E1.
  - apply qltb_true in E1. simpl in E1 |- *.
    replace (qltb (inject_Z mn) _) with false; [reflexivity|]. symmetry.
    apply qltb_false. apply Qle_trans with (inject_Z mx).
    + apply Qlt_le_weak. exact E1.
    + apply inject_Z_le_iff. lia.
  - simpl. replace (qltb (inject_Z mn) (inject_Z mx)) with false; [reflexivity|].
    symmetry. apply qltb_false. apply inject_Z_le_iff. lia.
Qed.

(** C8 (as stated: a malformed configuration is rejected before any
    transaction is generated) fails: an amount range with [min > max] is
    accepted and the batch is generated. *)
Lemma config_fail_fast_counterexample :
  ~ (forall cfg rng clk sv n w,
       (exists t mn mx, lookup t (MONTANT_RANGES cfg) = Some (mn, mx) /\ mx < mn) ->
       (1 <= n)%nat ->
       exists e, generer_batch_transactions cfg rng clk sv n w = inl e).
Proof.
  intros H.
  destruct (H config_swapped_range rng_demo clock_demo insertion_sort_stable 1%nat world0)
    as [e He].
  - exists "transfer", 100000, 1000. split; [reflexivity | lia].
  - lia.
  - vm_compute in He. discriminate He.
Qed.

(** * Further properties of the code *)

(** ** Calendar and timestamp rendering *)

Lemma check_range_ok f lo k :
  check_range f lo k = true -> forall x, lo <= x < lo + Z.of_nat k -> f x = true.
Proof.
  revert lo. induction k as [|k IH]; simpl; intros lo H x Hx; [lia|].
  destruct (f lo) eqn:E; [|discriminate].
  destruct (Z.eq_dec x lo) as [->|Hne]; [exact E|].
  apply (IH (lo + 1) H). lia.
Qed.

Lemma era_days_checked : era_scan 0 (-1) (Z.to_nat 146097) = true.
Proof. vm_compute. reflexivity. Qed.

Lemma two_digits_checked : check_range two_digits_ok 0 100 = true.
Proof. vm_compute. reflexivity. Qed.

Lemma four_digits_checked : check_range four_digits_ok 0 (Z.to_nat 10000) = true.
Proof. vm_compute. reflexivity. Qed.

Lemma era_scan_ok doe prev k : era_scan doe prev k = true ->
  forall x, doe <= x < doe + Z.of_nat k ->
    civil_bounds_ok (civil_from_days (x - 719468)) = true /\
    (x = doe -> prev < date_key (civil_from_days (x - 719468))) /\
    (doe < x -> date_key (civil_from_days (x - 1 - 719468)) <
                date_key (civil_from_days (x - 719468))).
Proof.
  revert doe prev. induction k as [|k IH]; intros doe prev H x Hx; [lia|].
  cbn [era_scan] in H.
  destruct (civil_bounds_ok (civil_from_days (doe - 719468)) &&
            (prev <? date_key (civil_from_days (doe - 719468)))) eqn:E; [|discriminate].
  apply andb_true_iff in E as [Eb Ep]. apply Z.ltb_lt in Ep.
  destruct (Z.eq_dec x doe) as [->|Hne].
  - split; [exact Eb|]. split; [intros _; exact Ep | lia].
  - destruct (IH (doe + 1) _ H x ltac:(lia)) as (H1 & H2 & H3).
    split; [exact H1|]. split; [lia|]. intros _.
    destruct (Z.eq_dec x (doe + 1)) as [->|Hne'].
    + replace (doe + 1 - 1 - 719468) with (doe - 719468) by ring. apply H2. reflexivity.
    + apply H3. lia.
Qed.

Lemma era_facts doe : 0 <= doe < 146097 ->
  civil_bounds_ok (civil_from_days (doe - 719468)) = true /\
  (0 < doe -> date_key (civil_from_days (doe - 1 - 719468)) <
              date_key (civil_from_days (doe - 719468))).
Proof.
  intros Hd. destruct (era_scan_ok 0 (-1) _ era_days_checked doe ltac:(lia)) as (H1 & _ & H3).
  split; [exact H1 | exact H3].
Qed.

Lemma civil_shift z0 :
  civil_from_days z0 =
  let '(y, m, d) := civil_from_days ((z0 + 719468) mod 146097 - 719468) in
  (y + (z0 + 719468) / 146097 * 400, m, d).
Proof.
  unfold civil_from_days. cbv zeta.
  replace ((z0 + 719468) mod 146097 - 719468 + 719468) with ((z0 + 719468) mod 146097) by ring.
  rewrite (Z.div_small ((z0 + 719468) mod 146097) 146097) by (apply Z.mod_pos_bound; lia).
  rewrite (Z.mod_eq (z0 + 719468) 146097) by lia.
  set (q := (z0 + 719468) / 146097).
  replace (z0 + 719468 - 146097 * q - 0 * 146097) with (z0 + 719468 - q * 146097) by ring.
  set (doe := z0 + 719468 - q * 146097).
  destruct (_ <=? 2); f_equal; f_equal; ring.
Qed.

Lemma date_key_shift (c : Z * Z * Z) s :
  date_key (let '(y, m, d) := c in (y + s * 400, m, d)) = date_key c + s * 4000000.
Proof. destruct c as [[y m] d]. unfold date_key. ring. Qed.

Lemma civil_era_start : civil_from_days (0 - 719468) = (0, 3, 1).
Proof. vm_compute. reflexivity. Qed.

Lemma civil_era_end : civil_from_days (146096 - 719468) = (400, 2, 29).
Proof. vm_compute. reflexivity. Qed.

Lemma civil_key_step z0 :
  date_key (civil_from_days z0) < date_key (civil_from_days (z0 + 1)).
Proof.
  rewrite (civil_shift z0), (civil_shift (z0 + 1)), !date_key_shift.
  replace (z0 + 1 + 719468) with (z0 + 719468 + 1) by ring.
  set (z := z0 + 719468).
  pose proof (Z.div_mod z 146097 ltac:(lia)) as Hz.
  pose proof (Z.mod_pos_bound z 146097 ltac:(lia)) as Hb.
  set (q := z / 146097) in *. set (doe := z mod 146097) in *.
  destruct (Z.eq_dec doe 146096) as [He|Hne].
  - rewrite <- (Z.mod_unique_pos (z + 1) 146097 (q + 1) 0) by lia.
    rewrite <- (Z.div_unique_pos (z + 1) 146097 (q + 1) 0) by lia.
    rewrite He, civil_era_end, civil_era_start. unfold date_key. lia.
  - rewrite <- (Z.mod_unique_pos (z + 1) 146097 q (doe + 1)) by lia.
    rewrite <- (Z.div_unique_pos (z + 1) 146097 q (doe + 1)) by lia.
    destruct (era_facts (doe + 1) ltac:(lia)) as [_ H].
    replace (doe + 1 - 1 - 719468) with (doe - 719468) in H by ring.
    specialize (H ltac:(lia)). lia.
Qed.

Lemma civil_key_lt z1 z2 : z1 < z2 ->
  date_key (civil_from_days z1) < date_key (civil_from_days z2).
Proof.
  intros Hlt.
  assert (Hk : forall k : nat, date_key (civil_from_days z1) <
                               date_key (civil_from_days (z1 + Z.of_nat (S k)))).
  { induction k as [|k IH].
    - apply civil_key_step.
    - eapply Z.lt_trans; [exact IH|].
      replace (z1 + Z.of_nat (S (S k))) with (z1 + Z.of_nat (S k) + 1) by lia.
      apply civil_key_step. }
  specialize (Hk (Z.to_nat (z2 - z1 - 1))).
  replace (z1 + Z.of_nat (S (Z.to_nat (z2 - z1 - 1)))) with z2 in Hk by lia.
  exact Hk.
Qed.

Lemma civil_key_compare z1 z2 :
  Z.compare (date_key (civil_from_days z1)) (date_key (civil_from_days z2)) = Z.compare z1 z2.
Proof.
  destruct (Z.compare_spec z1 z2) as [->|H|H].
  - apply Z.compare_refl.
  - apply Z.compare_lt_iff. apply civil_key_lt. exact H.
  - apply Z.compare_gt_iff. apply civil_key_lt. exact H.
Qed.

Lemma civil_bounds z0 :
  let '(y, m, d) := civil_from_days z0 in 1 <= m <= 12 /\ 1 <= d <= 31.
Proof.
  rewrite civil_shift.
  destruct (era_facts ((z0 + 719468) mod 146097) ltac:(apply Z.mod_pos_bound; lia)) as [H _].
  destruct (civil_from_days ((z0 + 719468) mod 146097 - 719468)) as [[y m] d].
  unfold civil_bounds_ok in H. rewrite !andb_true_iff, !Z.leb_le in H. lia.
Qed.

Lemma civil_year_range z0 : -719162 <= z0 <= 2932896 ->
  let '(y, m, d) := civil_from_days z0 in 1 <= y <= 9999.
Proof.
  intros Hz.
  assert (Hlo : date_key (civil_from_days (-719162)) <= date_key (civil_from_days z0)).
  { destruct (Z.eq_dec z0 (-719162)) as [->|]; [lia|]. apply Z.lt_le_incl, civil_key_lt. lia. }
  assert (Hhi : date_key (civil_from_days z0) <= date_key (civil_from_days 2932896)).
  { destruct (Z.eq_dec z0 2932896) as [->|]; [lia|]. apply Z.lt_le_incl, civil_key_lt. lia. }
  replace (date_key (civil_from_days (-719162))) with 10101 in Hlo by (vm_compute; reflexivity).
  replace (date_key (civil_from_days 2932896)) with 99991231 in Hhi by (vm_compute; reflexivity).
  pose proof (civil_bounds z0) as Hb.
  destruct (civil_from_days z0) as [[y m] d]. unfold date_key in *. lia.
Qed.

Lemma string_app_assoc a b c : (a ++ b) ++ c = a ++ (b ++ c).
Proof. induction a as [|x a IH]; cbn [append]; [reflexivity | rewrite IH; reflexivity]. Qed.

Lemma string_compare_refl s : String.compare s s = Eq.
Proof.
  induction s as [|c s IH]; cbn [String.compare]; [reflexivity|].
  unfold Ascii.compare. rewrite N.compare_refl. exact IH.
Qed.

Lemma string_compare_app a1 a2 r1 r2 : String.length a1 = String.length a2 ->
  String.compare (a1 ++ r1) (a2 ++ r2) = cmp_lex (String.compare a1 a2) (String.compare r1 r2).
Proof.
  revert a2. induction a1 as [|c1 a1 IH]; intros [|c2 a2] Hl; cbn in Hl; try discriminate.
  - reflexivity.
  - cbn [append String.compare]. destruct (Ascii.compare c1 c2); [apply IH; lia | reflexivity | reflexivity].
Qed.

Lemma cmp_lex_assoc a b c : cmp_lex (cmp_lex a b) c = cmp_lex a (cmp_lex b c).
Proof. destruct a; reflexivity. Qed.

Lemma compare_mul_add a1 b1 a2 b2 B : 0 <= b1 < B -> 0 <= b2 < B ->
  Z.compare (a1 * B + b1) (a2 * B + b2) = cmp_lex (Z.compare a1 a2) (Z.compare b1 b2).
Proof.
  intros H1 H2. destruct (Z.compare_spec a1 a2) as [->|H|H]; cbn [cmp_lex].
  - apply Z.add_compare_mono_l.
  - apply Z.compare_lt_iff. nia.
  - apply Z.compare_gt_iff. nia.
Qed.

Lemma comparison_eqb_eq c1 c2 : comparison_eqb c1 c2 = true -> c1 = c2.
Proof. destruct c1, c2; cbn; congruence. Qed.

Lemma two_digits_spec a b : 0 <= a < 100 -> 0 <= b < 100 ->
  String.length (pad_left 2 (str_int a)) = 2%nat /\
  String.compare (pad_left 2 (str_int a)) (pad_left 2 (str_int b)) = Z.compare a b.
Proof.
  intros Ha Hb. pose proof (check_range_ok _ _ _ two_digits_checked a ltac:(lia)) as H.
  unfold two_digits_ok in H. apply andb_true_iff in H as [H1 H2].
  split; [apply Nat.eqb_eq; exact H1|].
  apply comparison_eqb_eq. exact (check_range_ok _ _ _ H2 b ltac:(lia)).
Qed.

Lemma two_digits_length a : 0 <= a < 100 -> String.length (pad_left 2 (str_int a)) = 2%nat.
Proof. intros Ha. exact (proj1 (two_digits_spec a 0 Ha ltac:(lia))). Qed.

Lemma two_digits_compare a b : 0 <= a < 100 -> 0 <= b < 100 ->
  String.compare (pad_left 2 (str_int a)) (pad_left 2 (str_int b)) = Z.compare a b.
Proof. intros Ha Hb. exact (proj2 (two_digits_spec a b Ha Hb)). Qed.

Lemma four_digits_split y : 0 <= y < 10000 ->
  pad_left 4 (str_int y) = pad_left 2 (str_int (y / 100)) ++ pad_left 2 (str_int (y mod 100)).
Proof.
  intros Hy. apply String.eqb_eq.
  exact (check_range_ok _ _ _ four_digits_checked y ltac:(rewrite Z2Nat.id by lia; lia)).
Qed.

Lemma time_of_day t :
  t / US = t / DAY_US * 86400 + (dt_hour t * 3600 + (dt_minute t * 60 + dt_second t)) /\
  0 <= dt_hour t < 24 /\ 0 <= dt_minute t < 60 /\ 0 <= dt_second t < 60.
Proof.
  unfold dt_hour, dt_minute, dt_second, DAY_US.
  rewrite (Z.mul_comm 86400 US), <- (Z.div_div t US 86400) by (unfold US; lia).
  set (u := t / US).
  rewrite <- (Z.mod_mod_divide u 86400 3600) by (exists 24; reflexivity).
  rewrite <- (Z.mod_mod_divide u 86400 60) by (exists 1440; reflexivity).
  rewrite <- (Z.mod_mod_divide (u mod 86400) 3600 60) by (exists 60; reflexivity).
  set (S := u mod 86400).
  pose proof (Z.div_mod u 86400 ltac:(lia)) as E1.
  pose proof (Z.mod_pos_bound u 86400 ltac:(lia)) as B1.
  pose proof (Z.div_mod S 3600 ltac:(lia)) as E2.
  pose proof (Z.mod_pos_bound S 3600 ltac:(lia)) as B2.
  pose proof (Z.div_mod (S mod 3600) 60 ltac:(lia)) as E3.
  pose proof (Z.mod_pos_bound (S mod 3600) 60 ltac:(lia)) as B3.
  fold S in E1, B1. lia.
Qed.

Lemma compare_sub_r a b c : Z.compare (a - c) (b - c) = Z.compare a b.
Proof.
  destruct (Z.compare_spec a b);
    [apply Z.compare_eq_iff | apply Z.compare_lt_iff | apply Z.compare_gt_iff]; lia.
Qed.

Lemma dt_date_bounds t : dt_valid t = true ->
  let '(y, m, d) := dt_date t in 1 <= y <= 9999 /\ 1 <= m <= 12 /\ 1 <= d <= 31.
Proof.
  intros Hv. unfold dt_valid in Hv. apply andb_true_iff in Hv as [H1 H2].
  apply Z.leb_le in H1. apply Z.ltb_lt in H2.
  assert (Hd : -719162 <= t / DAY_US - 719162 <= 2932896).
  { unfold MAX_US in H2. split.
    - pose proof (Z.div_pos t DAY_US H1 ltac:(unfold DAY_US, US; lia)). lia.
    - assert (t / DAY_US < 3652059); [|lia].
      apply Z.div_lt_upper_bound; [unfold DAY_US, US; lia | lia]. }
  pose proof (civil_year_range _ Hd) as Hy. pose proof (civil_bounds (t / DAY_US - 719162)) as Hb.
  unfold dt_date. destruct (civil_from_days _) as [[y m] d]. lia.
Qed.

Lemma compare_split100 a b :
  (a ?= b) = cmp_lex (a / 100 ?= b / 100) (a mod 100 ?= b mod 100).
Proof.
  rewrite <- (compare_mul_add _ _ _ _ 100) by (apply Z.mod_pos_bound; lia).
  pose proof (Z.div_mod a 100 ltac:(lia)). pose proof (Z.div_mod b 100 ltac:(lia)).
  f_equal; lia.
Qed.

Lemma str_int_four_digits y : 1000 <= y < 10000 -> str_int y = pad_left 4 (str_int y).
Proof.
  intros Hy. destruct (str_int_width y 3 ltac:(simpl; lia)) as [Hl _].
  unfold pad_left. rewrite Hl. reflexivity.
Qed.

Lemma dt_year_from_1000 t : dt_valid t = true -> Y1000_US <= t ->
  let '(y, m, d) := dt_date t in 1000 <= y.
Proof.
  intros Hv Ht. pose proof (dt_date_bounds t Hv) as B.
  assert (K : Z.compare (date_key (civil_from_days (364877 - 719162)))
                        (date_key (dt_date t)) <> Gt).
  { unfold dt_date. rewrite civil_key_compare. apply Z.compare_le_iff.
    enough (364877 <= t / DAY_US) by lia.
    apply Z.div_le_lower_bound; unfold Y1000_US, DAY_US, US in *; lia. }
  replace (civil_from_days (364877 - 719162)) with (1000, 1, 1) in K by (vm_compute; reflexivity).
  destruct (dt_date t) as [[y m] d]. unfold date_key in K. rewrite Z.compare_le_iff in K. cbn in B |- *. lia.
Qed.

Lemma strftime_compare t1 t2 : dt_valid t1 = true -> dt_valid t2 = true ->
  Y1000_US <= t1 -> Y1000_US <= t2 ->
  String.compare (strftime t1) (strftime t2) = Z.compare (t1 / US) (t2 / US).
Proof.
  intros V1 V2 L1 L2.
  pose proof (dt_year_from_1000 t1 V1 L1) as Y1. pose proof (dt_year_from_1000 t2 V2 L2) as Y2.
  destruct (time_of_day t1) as (E1 & h1 & mi1 & s1).
  destruct (time_of_day t2) as (E2 & h2 & mi2 & s2).
  rewrite E1, E2.
  rewrite !compare_mul_add by lia.
  rewrite <- (compare_sub_r (t1 / DAY_US) (t2 / DAY_US) 719162).
  rewrite <- civil_key_compare.
  pose proof (dt_date_bounds t1 V1) as B1. pose proof (dt_date_bounds t2 V2) as B2.
  unfold strftime. unfold dt_date in *.
  destruct (civil_from_days (t1 / DAY_US - 719162)) as [[y1 m1] d1].
  destruct (civil_from_days (t2 / DAY_US - 719162)) as [[y2 m2] d2].
  unfold date_key.
  rewrite (str_int_four_digits y1), (str_int_four_digits y2) by lia.
  rewrite !compare_mul_add by lia.
  rewrite (compare_split100 y1 y2) by lia.
  rewrite !four_digits_split by lia. rewrite !string_app_assoc.
  assert (Hy1 : 0 <= y1 / 100 < 100) by (split; [apply Z.div_pos | apply Z.div_lt_upper_bound]; lia).
  assert (Hy2 : 0 <= y2 / 100 < 100) by (split; [apply Z.div_pos | apply Z.div_lt_upper_bound]; lia).
  pose proof (Z.mod_pos_bound y1 100 ltac:(lia)). pose proof (Z.mod_pos_bound y2 100 ltac:(lia)).
  repeat match goal with
  | |- context [String.compare (append ?a1 ?r1) (append ?a2 ?r2)] =>
      rewrite (string_compare_app a1 a2 r1 r2)
        by (first [reflexivity | rewrite !two_digits_length by lia; reflexivity])
  end.
  rewrite !string_compare_refl.
  rewrite !two_digits_compare by lia.
  rewrite !cmp_lex_assoc. reflexivity.
Qed.

(** ** Draws, batches and their errors *)

Lemma cumsum_ge acc r : (forall x, In x r -> 0 <= x)%Q ->
  forall c, In c (cumsum_from acc r) -> (acc <= c)%Q.
Proof.
  revert acc. induction r as [|x r IH]; simpl; intros acc Hn c Hc; [destruct Hc|].
  assert (Hx : (0 <= x)%Q) by (apply Hn; left; reflexivity).
  destruct Hc as [<-|Hc].
  - rewrite <- (Qplus_0_r acc) at 1. apply Qplus_le_compat; [apply Qle_refl | exact Hx].
  - apply Qle_trans with (acc + x)%Q.
    + rewrite <- (Qplus_0_r acc) at 1. apply Qplus_le_compat; [apply Qle_refl | exact Hx].
    + apply IH; [intros y Hy; apply Hn; right; exact Hy | exact Hc].
Qed.

Lemma cumsum_pick (f : Q -> bool) v acc p :
  (forall c, f c = true <-> (c <= v)%Q) ->
  (acc <= v)%Q -> (forall x, In x p -> 0 <= x)%Q -> (v < acc + qsum p)%Q ->
  exists i pi, nth_error p i = Some pi /\ (0 < pi)%Q /\
    List.length (filter f (cumsum_from acc p)) = i.
Proof.
  intros Hf. revert acc. induction p as [|x r IH]; intros acc Ha Hn Hv.
  - exfalso. simpl in Hv. rewrite Qplus_0_r in Hv. apply (Qlt_not_le _ _ Hv Ha).
  - assert (Hx : (0 <= x)%Q) by (apply Hn; left; reflexivity).
    assert (Hr : forall y, In y r -> (0 <= y)%Q) by (intros y Hy; apply Hn; right; exact Hy).
    simpl. destruct (f (acc + x)%Q) eqn:E.
    + apply Hf in E.
      destruct (IH (acc + x)%Q E Hr) as (i & pi & H1 & H2 & H3).
      { simpl in Hv. rewrite Qplus_assoc in Hv. exact Hv. }
      exists (S i), pi. simpl. auto.
    + exists O, x. split; [reflexivity|]. split.
      * assert (Hlt : (v < acc + x)%Q).
        { apply Qnot_le_lt. intros Hle. apply Hf in Hle. congruence. }
        apply Qnot_le_lt. intros Hle. apply (Qlt_not_le _ _ Hlt).
        apply Qle_trans with acc; [|exact Ha].
        rewrite <- (Qplus_0_r acc) at 2. apply Qplus_le_compat; [apply Qle_refl | exact Hle].
      * assert (filter f (cumsum_from (acc + x) r) = []) as ->; [|reflexivity].
        assert (Hlt : (v < acc + x)%Q).
        { apply Qnot_le_lt. intros Hle. apply Hf in Hle. congruence. }
        pose proof (cumsum_ge (acc + x)%Q r Hr) as Hge.
        induction (cumsum_from (acc + x)%Q r) as [|c l IHl]; [reflexivity|].
        simpl. destruct (f c) eqn:Ec.
        -- apply Hf in Ec. exfalso. apply (Qlt_not_le _ _ Hlt).
           apply Qle_trans with c; [apply Hge; left; reflexivity | exact Ec].
        -- apply IHl. intros c' Hc'. apply Hge. right. exact Hc'.
Qed.

Lemma length_filter_map {A B} (f : B -> bool) (g : A -> B) l :
  List.length (filter f (map g l)) = List.length (filter (fun x => f (g x)) l).
Proof. induction l as [|x l IH]; simpl; [reflexivity|]. destruct (f (g x)); simpl; auto. Qed.

Lemma qsum_total_pos p : qltb ATOL (Qabs (qsum p - 1)) = false -> (0 < qsum p)%Q.
Proof.
  intros H. apply qltb_false in H. apply Qabs_Qle_condition in H as [H _].
  unfold ATOL in H. apply Qlt_le_trans with (qsum p - 1 + 1)%Q.
  - apply Qlt_le_trans with (- (1 # 67108864) + 1)%Q; [reflexivity|].
    apply Qplus_le_compat; [exact H | apply Qle_refl].
  - ring_simplify. apply Qle_refl.
Qed.

Lemma div_le_iff c t u : (0 < t)%Q -> (c / t <= u <-> c <= u * t)%Q.
Proof.
  intros Ht. split; intros H.
  - apply Qle_trans with (c / t * t)%Q.
    + rewrite Qmult_comm, Qmult_div_r; [apply Qle_refl|]. intros E. rewrite E in Ht. discriminate.
    + apply Qmult_le_compat_r; [exact H | apply Qlt_le_weak; exact Ht].
  - apply Qle_shift_div_r; [exact Ht | exact H].
Qed.

Section NpChoice.
Variable rng : Rng.
Hypothesis Hrng : rng_ok rng.

Lemma np_choice_core a p w :
  a <> [] -> List.length p = List.length a -> existsb (fun x => qltb x 0) p = false ->
  qltb ATOL (Qabs (qsum p - 1)) = false ->
  exists i x pi,
    np_choice rng a p w = inr (x, mkWorld (S (np_calls w)) (py_calls w) (clock_calls w)) /\
    nth_error a i = Some x /\ nth_error p i = Some pi /\ (0 < pi)%Q.
Proof.
  intros Ha Hl Hn Hs.
  destruct Hrng as [Hu _]. specialize (Hu (np_calls w)).
  set (u := np_random_sample rng (np_calls w)) in *.
  pose proof (qsum_total_pos p Hs) as Ht.
  assert (Hnn : forall x, In x p -> (0 <= x)%Q).
  { intros x Hx. destruct (Qlt_le_dec x 0) as [Hlt|Hle]; [|exact Hle].
    exfalso. assert (existsb (fun x => qltb x 0) p = true) by
      (apply existsb_exists; exists x; split; [exact Hx | apply qltb_true; exact Hlt]).
    congruence. }
  destruct (cumsum_pick (fun c => Qle_bool (c / qsum p) u) (u * qsum p) 0 p)
    as (i & pi & Hpi & Hpos & Hi).
  - intros c. rewrite Qle_bool_iff. apply div_le_iff. exact Ht.
  - apply Qmult_le_0_compat; [apply Hu | apply Qlt_le_weak; exact Ht].
  - exact Hnn.
  - rewrite Qplus_0_l. rewrite <- (Qmult_1_l (qsum p)) at 2.
    apply Qmult_lt_compat_r; [exact Ht | apply Hu].
  - assert (Hia : (i < List.length a)%nat).
    { rewrite <- Hl. apply nth_error_Some. congruence. }
    destruct (nth_error a i) as [x|] eqn:Ex; [|apply nth_error_None in Ex; lia].
    exists i, x, pi. split; [|auto].
    unfold np_choice. destruct a as [|a0 ar]; [congruence|].
    rewrite Hl, Nat.eqb_refl, Hn, Hs. cbn [negb].
    unfold bind, np_random_sample_m. fold u.
    rewrite length_filter_map, Hi.
    rewrite Ex. reflexivity.
Qed.
End NpChoice.

Lemma np_choice_pos rng a p w x w' :
  rng_ok rng -> np_choice rng a p w = inr (x, w') ->
  exists i pi, nth_error a i = Some x /\ nth_error p i = Some pi /\ (0 < pi)%Q.
Proof.
  intros Hr H. pose proof H as H'. unfold np_choice in H'.
  destruct a as [|a0 ar]; [discriminate|].
  destruct (negb (Nat.eqb (List.length p) (List.length (a0 :: ar)))) eqn:E1; [discriminate|].
  destruct (existsb (fun x => qltb x 0) p) eqn:E2; [discriminate|].
  destruct (qltb ATOL (Qabs (qsum p - 1))) eqn:E3; [discriminate|].
  apply negb_false_iff, Nat.eqb_eq in E1.
  destruct (np_choice_core rng Hr (a0 :: ar) p w ltac:(discriminate) E1 E2 E3)
    as (i & x' & pi & E & Hx & Hp & Hpos).
  rewrite E in H. injection H as -> _. eauto.
Qed.

Lemma np_choice_world rng a p w x w' :
  np_choice rng a p w = inr (x, w') ->
  w' = mkWorld (S (np_calls w)) (py_calls w) (clock_calls w).
Proof.
  unfold np_choice. destruct a as [|a0 ar]; [discriminate|].
  destruct (negb _); [discriminate|]. destruct (existsb _ _); [discriminate|].
  destruct (qltb _ _); [discriminate|].
  intros H. inv_bind H. unfold np_random_sample_m in Hc. injection Hc as _ <-.
  destruct (nth_error _ _); [|discriminate]. inv_ret H. reflexivity.
Qed.

Lemma py_choice_world rng l w x w' :
  py_choice rng l w = inr (x, w') ->
  w' = mkWorld (np_calls w) (S (py_calls w)) (clock_calls w).
Proof.
  unfold py_choice. destruct l as [|l0 lr]; [discriminate|].
  intros H. inv_bind H. unfold randbelow in Hc. injection Hc as _ <-.
  destruct (nth_error _ _); [|discriminate]. inv_ret H. reflexivity.
Qed.

Lemma py_randint_world rng a b w x w' :
  py_randint rng a b w = inr (x, w') ->
  w' = mkWorld (np_calls w) (S (py_calls w)) (clock_calls w).
Proof.
  unfold py_randint. destruct (_ <=? 0); [discriminate|].
  intros H. inv_bind H. unfold randbelow in Hc. injection Hc as _ <-. inv_ret H. reflexivity.
Qed.

Lemma generer_montant_world cfg rng t w a w' :
  generer_montant cfg rng t w = inr (a, w') ->
  w' = mkWorld (S (np_calls w)) (py_calls w) (clock_calls w).
Proof.
  unfold generer_montant. destruct (lookup _ _) as [[mn mx]|]; [|discriminate].
  intros H. inv_bind H. unfold np_lognormal_m in Hc. injection Hc as _ <-. inv_ret H. reflexivity.
Qed.

Lemma generer_user_id_world rng w u w' :
  generer_user_id rng w = inr (u, w') ->
  w' = mkWorld (np_calls w) (2 + py_calls w) (clock_calls w).
Proof.
  unfold generer_user_id. intros H. inv_bind H. inv_bind H. inv_ret H.
  apply py_choice_world in Hc. apply py_randint_world in Hc0. subst. reflexivity.
Qed.

Lemma generer_transaction_world cfg rng clk w t w' :
  generer_transaction cfg rng clk w = inr (t, w') ->
  w' = mkWorld (2 + np_calls w) (5 + py_calls w) (2 + clock_calls w).
Proof.
  unfold generer_transaction. intros H.
  inv_bind H. inv_bind H. inv_bind H. inv_bind H. inv_bind H.
  inv_bind H. inv_bind H. inv_bind H. inv_ret H.
  apply np_choice_world in Hc. apply generer_montant_world in Hc0.
  apply py_choice_world in Hc1. apply py_choice_world in Hc2.
  apply generer_user_id_world in Hc3. unfold now_m in Hc4. injection Hc4 as _ <-.
  unfold time_m in Hc5. injection Hc5 as _ <-. apply py_randint_world in Hc6.
  subst. reflexivity.
Qed.

Lemma batch_loop_world cfg rng clk base k w l w' :
  batch_loop cfg rng clk base k w = inr (l, w') ->
  w' = mkWorld (2 * k + np_calls w) (6 * k + py_calls w) (2 * k + clock_calls w) /\
  List.length l = k.
Proof.
  revert w l. induction k as [|k IH]; simpl; intros w l H.
  - inv_ret H. split; [|reflexivity]. match goal with |- ?v = _ => destruct v; reflexivity end.
  - inv_bind H. inv_bind H. inv_bind H. inv_bind H. inv_ret H.
    apply generer_transaction_world in Hc. apply py_randint_world in Hc0.
    apply dt_add_world in Hc1. destruct (IH _ _ Hc2) as [-> Hl].
    subst. simpl. split; [f_equal; lia | reflexivity].
Qed.

Lemma py_randint_ok rng a b w : a <= b -> exists x w', py_randint rng a b w = inr (x, w').
Proof.
  intros H. unfold py_randint. destruct (b + 1 - a <=? 0) eqn:E; [apply Z.leb_le in E; lia|].
  unfold bind, randbelow, ret. eauto.
Qed.

Lemma py_choice_ok rng l w : rng_ok rng -> l <> [] -> exists x w', py_choice rng l w = inr (x, w').
Proof.
  intros [_ Hb] Hl. unfold py_choice. destruct l as [|l0 lr]; [congruence|].
  unfold bind, randbelow.
  set (i := py_randbelow rng (py_calls w) (Z.of_nat (List.length (l0 :: lr)))).
  assert (Hi : 0 <= i < Z.of_nat (List.length (l0 :: lr))) by (apply Hb; simpl; lia).
  destruct (nth_error (l0 :: lr) (Z.to_nat i)) eqn:E.
  - unfold ret. eauto.
  - apply nth_error_None in E. lia.
Qed.

Lemma generer_user_id_ok rng w : rng_ok rng -> exists u w', generer_user_id rng w = inr (u, w').
Proof.
  intros Hr. unfold generer_user_id.
  destruct (py_choice_ok rng prefixes w Hr ltac:(discriminate)) as (pr & w1 & Hp).
  destruct (py_randint_ok rng 1000000 9999999 w1 ltac:(lia)) as (nu & w2 & Hn).
  rewrite (bind_inr_eq _ _ _ _ _ Hp), (bind_inr_eq _ _ _ _ _ Hn). unfold ret. eauto.
Qed.

Lemma generer_transaction_config0_ok rng clk w :
  rng_ok rng -> exists t w', generer_transaction config0 rng clk w = inr (t, w').
Proof.
  intros Hr. unfold generer_transaction.
  destruct (np_choice_config0_ok rng w Hr) as (x & w1 & Hx).
  rewrite (bind_inr_eq _ _ _ _ _ Hx).
  destruct (config0_type_has_range x (np_choice_in _ _ _ _ _ _ Hx)) as (mn & mx & Hl).
  destruct (generer_montant_ok config0 rng x w1 mn mx Hl) as (a & w2 & Ha).
  rewrite (bind_inr_eq _ _ _ _ _ Ha).
  destruct (py_choice_ok rng (VILLES config0) w2 Hr ltac:(discriminate)) as (c & w3 & Hc).
  rewrite (bind_inr_eq _ _ _ _ _ Hc).
  destruct (py_choice_ok rng (OPERATEURS config0) w3 Hr ltac:(discriminate)) as (o & w4 & Ho).
  rewrite (bind_inr_eq _ _ _ _ _ Ho).
  destruct (generer_user_id_ok rng w4 Hr) as (u & w6 & Hu).
  rewrite (bind_inr_eq _ _ _ _ _ Hu).
  unfold bind at 1, now_m. unfold bind at 1, time_m.
  match goal with |- context [bind (py_randint rng 1000 9999) _ ?v] =>
    destruct (py_randint_ok rng 1000 9999 v ltac:(lia)) as (s & w8 & Hs) end.
  unfold bind. rewrite Hs. unfold ret. eauto.
Qed.

(** C8, amended: the script validates nothing itself.  On the first
    record, [np.random.choice] raises [ValueError] when the type table is
    empty, and when its weights are off by more than numpy's tolerance
    (with the message of whichever of its checks fails first); with an
    otherwise valid configuration (non-negative weights summing to 1, an
    amount range for every type), an empty city list or an empty operator
    list makes [random.choice] raise [IndexError] there; in all these cases
    the batch returns no transaction.  An amount range with [min > max] is
    accepted and yields [min_val] as the amount of every transaction of
    that type. *)
Theorem configuration_not_validated cfg rng clk sv k w :
  dt_valid (datetime_now clk (clock_calls w) + - (7 * DAY_US)) = true ->
  (TRANSACTION_TYPES cfg = [] ->
   generer_batch_transactions cfg rng clk sv (S k) w =
     inl (ValueError "'a' cannot be empty unless no samples are taken")) /\
  (qltb ATOL (Qabs (qsum (map snd (TRANSACTION_TYPES cfg)) - 1)) = true ->
   exists msg, generer_batch_transactions cfg rng clk sv (S k) w = inl (ValueError msg)) /\
  (rng_ok rng ->
   TRANSACTION_TYPES cfg <> [] ->
   (forall x, In x (map snd (TRANSACTION_TYPES cfg)) -> 0 <= x)%Q ->
   (Qabs (qsum (map snd (TRANSACTION_TYPES cfg)) - 1) <= ATOL)%Q ->
   (forall t, In t (map fst (TRANSACTION_TYPES cfg)) ->
      exists mn mx, lookup t (MONTANT_RANGES cfg) = Some (mn, mx)) ->
   VILLES cfg = [] \/ OPERATEURS cfg = [] ->
   generer_batch_transactions cfg rng clk sv (S k) w =
     inl (IndexError "Cannot choose from an empty sequence")) /\
  (forall t mn mx w0,
   lookup t (MONTANT_RANGES cfg) = Some (mn, mx) -> mx < mn ->
   exists w0', generer_montant cfg rng t w0 = inr (PInt mn, w0')).
Proof.
  intros Hv. split; [|split; [|split]].
  - intros HT. apply batch_first_error; [exact Hv|].
    unfold generer_transaction. apply bind_inl. rewrite HT. reflexivity.
  - intros Hs.
    assert (E : exists msg, generer_transaction cfg rng clk
                  (mkWorld (np_calls w) (py_calls w) (S (clock_calls w))) = inl (ValueError msg)).
    { unfold generer_transaction, np_choice.
      destruct (map fst (TRANSACTION_TYPES cfg)) as [|a0 ar] eqn:Ea.
      - eexists. reflexivity.
      - rewrite length_map, <- (length_map fst), Ea, Nat.eqb_refl. cbn [negb].
        destruct (existsb (fun x => qltb x 0) (map snd (TRANSACTION_TYPES cfg)));
          [eexists; reflexivity|].
        rewrite Hs. eexists. reflexivity. }
    destruct E as [msg E]. exists msg. apply batch_first_error; assumption.
  - intros Hr HT Hn Hs HR Hemp. apply batch_first_error; [exact Hv|].
    set (w1 := mkWorld (np_calls w) (py_calls w) (S (clock_calls w))).
    destruct (np_choice_core rng Hr (map fst (TRANSACTION_TYPES cfg))
                (map snd (TRANSACTION_TYPES cfg)) w1) as (i & x & pi & Hx & Hi & _).
    + destruct (TRANSACTION_TYPES cfg); [congruence | discriminate].
    + rewrite !length_map. reflexivity.
    + apply Bool.not_true_iff_false. intros E. apply existsb_exists in E as (y & Hy & Hq).
      apply qltb_true in Hq. apply (Qlt_not_le _ _ Hq (Hn y Hy)).
    + apply qltb_false. exact Hs.
    + destruct (HR x (nth_error_In _ _ Hi)) as (mn & mx & Hl).
      destruct (generer_montant_ok cfg rng x (mkWorld (S (np_calls w1)) (py_calls w1)
                  (clock_calls w1)) mn mx Hl) as (a & w2 & Ha).
      unfold generer_transaction. rewrite (bind_inr_eq _ _ _ _ _ Hx).
      rewrite (bind_inr_eq _ _ _ _ _ Ha).
      destruct Hemp as [HV | HO]; [rewrite HV; reflexivity|].
      destruct (VILLES cfg) as [|c0 cs] eqn:EV; [reflexivity|].
      destruct (py_choice_ok rng (c0 :: cs) w2 Hr ltac:(discriminate)) as (c & w3 & Hc).
      rewrite (bind_inr_eq _ _ _ _ _ Hc). rewrite HO. reflexivity.
  - intros t mn mx w0 Hl Hlt. exact (generer_montant_swapped cfg rng t w0 mn mx Hl Hlt).
Qed.

Lemma configuration_not_validated_witness :
  generer_batch_transactions config_no_type rng_demo clock_demo insertion_sort_stable 1%nat
    world0 = inl (ValueError "'a' cannot be empty unless no samples are taken") /\
  (exists msg, generer_batch_transactions config_bad_weights rng_demo clock_demo
                 insertion_sort_stable 1%nat world0 = inl (ValueError msg)) /\
  generer_batch_transactions config_no_city rng_demo clock_demo insertion_sort_stable 1%nat
    world0 = inl (IndexError "Cannot choose from an empty sequence") /\
  generer_batch_transactions config_no_operator rng_demo clock_demo insertion_sort_stable 1%nat
    world0 = inl (IndexError "Cannot choose from an empty sequence") /\
  (exists w0', generer_montant config_swapped_range rng_demo "transfer" world0 =
               inr (PInt 100000, w0')).
Proof.
  pose proof (configuration_not_validated config_no_type rng_demo clock_demo
                insertion_sort_stable 0%nat world0 ltac:(vm_compute; reflexivity))
    as [Ha _].
  pose proof (configuration_not_validated config_bad_weights rng_demo clock_demo
                insertion_sort_stable 0%nat world0 ltac:(vm_compute; reflexivity))
    as [_ [Hb _]].
  pose proof (configuration_not_validated config_no_city rng_demo clock_demo
                insertion_sort_stable 0%nat world0 ltac:(vm_compute; reflexivity))
    as [_ [_ [Hc _]]].
  pose proof (configuration_not_validated config_no_operator rng_demo clock_demo
                insertion_sort_stable 0%nat world0 ltac:(vm_compute; reflexivity))
    as [_ [_ [Ho _]]].
  pose proof (configuration_not_validated config_swapped_range rng_demo clock_demo
                insertion_sort_stable 0%nat world0 ltac:(vm_compute; reflexivity))
    as [_ [_ [_ Hd]]].
  assert (Hn : (forall x, In x (map snd (TRANSACTION_TYPES config0)) -> 0 <= x)%Q).
  { intros x Hx. simpl in Hx.
    repeat (destruct Hx as [<- | Hx]; [vm_compute; discriminate|]). destruct Hx. }
  split; [exact (Ha eq_refl)|].
  split; [exact (Hb ltac:(vm_compute; reflexivity))|].
  split; [exact (Hc rng_demo_ok ltac:(discriminate) Hn ltac:(vm_compute; discriminate)
                    config0_type_has_range (or_introl eq_refl))|].
  split; [exact (Ho rng_demo_ok ltac:(discriminate) Hn ltac:(vm_compute; discriminate)
                    config0_type_has_range (or_intror eq_refl))|].
  exact (Hd "transfer" 100000 1000 world0 eq_refl ltac:(lia)).
Defined.

Lemma batch_loop_ok cfg rng clk base k w :
  rng_ok rng -> 0 <= base -> base + 7 * DAY_US < MAX_US ->
  (forall v, exists t v', generer_transaction cfg rng clk v = inr (t, v')) ->
  exists l w', batch_loop cfg rng clk base k w = inr (l, w').
Proof.
  intros Hr H0 H1 Hg. revert w. induction k as [|k IH]; intros w; simpl.
  - do 2 eexists; reflexivity.
  - destruct (Hg w) as (t & w1 & Ht). rewrite (bind_inr_eq _ _ _ _ _ Ht).
    destruct (py_randint_ok rng 0 (7 * 24) w1 ltac:(lia)) as (off & w2 & Ho).
    pose proof (py_randint_range rng _ _ _ _ _ Hr Ho) as Hoff.
    rewrite (bind_inr_eq _ _ _ _ _ Ho).
    assert (Hv : dt_add base (off * HOUR_US) w2 = inr (base + off * HOUR_US, w2)).
    { unfold dt_add. replace (dt_valid (base + off * HOUR_US)) with true; [reflexivity|].
      symmetry. unfold dt_valid, HOUR_US, DAY_US, US in *. apply andb_true_iff.
      split; [apply Z.leb_le | apply Z.ltb_lt]; lia. }
    rewrite (bind_inr_eq _ _ _ _ _ Hv).
    destruct (IH w2) as (l & w3 & Hl). rewrite (bind_inr_eq _ _ _ _ _ Hl).
    do 2 eexists; reflexivity.
Qed.

Lemma batch_loop_length cfg rng clk base k w l w' :
  batch_loop cfg rng clk base k w = inr (l, w') -> List.length l = k.
Proof. intros H. exact (proj2 (batch_loop_world _ _ _ _ _ _ _ _ H)). Qed.

(** With the script's configuration, a generator meeting its contract, a
    sort meeting its contract and a clock reading at least 7 days after
    0001-01-01 (and before the end of year 9999), [generer_batch_transactions n]
    succeeds for every [n >= 1] and returns exactly [n] rows. *)
Theorem batch_config0_succeeds rng clk sv n w :
  rng_ok rng -> sort_contract sv -> (1 <= n)%nat ->
  7 * DAY_US <= datetime_now clk (clock_calls w) < MAX_US ->
  exists df w', generer_batch_transactions config0 rng clk sv n w = inr (df, w') /\
                List.length df = n.
Proof.
  intros Hr Hs Hn Hnow.
  assert (Hv : dt_valid (datetime_now clk (clock_calls w) + - (7 * DAY_US)) = true).
  { unfold dt_valid. apply andb_true_iff. split; [apply Z.leb_le | apply Z.ltb_lt];
      unfold MAX_US, DAY_US, US in *; lia. }
  destruct (batch_loop_ok config0 rng clk (datetime_now clk (clock_calls w) + - (7 * DAY_US)) n
              (mkWorld (np_calls w) (py_calls w) (S (clock_calls w))) Hr
              ltac:(unfold DAY_US, US in *; lia) ltac:(unfold DAY_US, US in *; lia)
              (fun v => generer_transaction_config0_ok rng clk v Hr)) as (l & w' & Hl).
  pose proof (batch_loop_length _ _ _ _ _ _ _ _ Hl) as Hlen.
  unfold generer_batch_transactions, bind at 1. rewrite collect_unfold by exact Hv.
  rewrite Hl.
  destruct l as [|t r]; [simpl in Hlen; lia|].
  exists (sv (t :: r)), w'. split; [reflexivity|].
  rewrite <- (Permutation_length (proj1 (Hs (t :: r)))). exact Hlen.
Qed.

(** A successful batch of [n] rows consumes exactly [2n] numpy draws,
    [6n] draws of Python's [random] and [1 + 2n] clock readings. *)
Theorem batch_draw_count cfg rng clk sv n w df w' :
  generer_batch_transactions cfg rng clk sv n w = inr (df, w') ->
  w' = mkWorld (2 * n + np_calls w) (6 * n + py_calls w) (1 + 2 * n + clock_calls w).
Proof.
  intros H. apply batch_inv in H as (pre & Hc & _ & _).
  unfold collect_transactions in Hc. inv_bind Hc. inv_bind Hc.
  unfold now_m in Hc0. injection Hc0 as _ <-. apply dt_add_world in Hc1. subst.
  destruct (batch_loop_world _ _ _ _ _ _ _ _ Hc) as [-> _]. simpl. f_equal; lia.
Qed.

(** Every row of a batch has a city from [VILLES], an operator from
    [OPERATEURS], a type among the keys of [TRANSACTION_TYPES] and the
    status ['completed']. *)
Theorem batch_fields_from_config cfg rng clk sv n w df w' :
  sort_contract sv ->
  generer_batch_transactions cfg rng clk sv n w = inr (df, w') ->
  forall t, In t df ->
  In (city t) (VILLES cfg) /\ In (operator t) (OPERATEURS cfg) /\
  In (transaction_type t) (map fst (TRANSACTION_TYPES cfg)) /\ status t = "completed".
Proof.
  intros Hs H t Ht.
  destruct (batch_in _ _ _ _ _ _ _ _ Hs H t Ht) as (t0 & w1 & w1' & off & w2 & w2' & Hg & _ & ->).
  apply generer_transaction_inv in Hg as (Hty & _ & Hc & Ho & _ & _ & Hst).
  simpl. auto.
Qed.

Lemma generer_transaction_type cfg rng clk w t w' :
  generer_transaction cfg rng clk w = inr (t, w') ->
  exists v v', np_choice rng (map fst (TRANSACTION_TYPES cfg)) (map snd (TRANSACTION_TYPES cfg)) v
               = inr (transaction_type t, v').
Proof.
  unfold generer_transaction. intros H.
  inv_bind H. inv_bind H. inv_bind H. inv_bind H. inv_bind H.
  inv_bind H. inv_bind H. inv_bind H. inv_ret H. simpl. eauto.
Qed.

Lemma lookup_nth_error {A} (l : list (string * A)) i k v :
  NoDup (map fst l) -> nth_error (map fst l) i = Some k -> nth_error (map snd l) i = Some v ->
  lookup k l = Some v.
Proof.
  revert i. induction l as [|[k' v'] l IH]; intros i Hnd Hk Hv; [destruct i; discriminate|].
  inversion Hnd as [|? ? Hni Hnd']; subst. simpl.
  destruct i as [|i]; simpl in Hk, Hv.
  - injection Hk as <-. injection Hv as <-. rewrite String.eqb_refl. reflexivity.
  - destruct (String.eqb k k') eqn:E.
    + apply String.eqb_eq in E. subst. exfalso. apply Hni. eapply nth_error_In. exact Hk.
    + eapply IH; eauto.
Qed.

(** A transaction type whose weight in [TRANSACTION_TYPES] is 0 never
    appears in a batch (keys distinct, generators meeting their contract). *)
Theorem zero_weight_type_never_drawn cfg rng clk sv n w df w' ty q :
  rng_ok rng -> sort_contract sv ->
  NoDup (map fst (TRANSACTION_TYPES cfg)) ->
  lookup ty (TRANSACTION_TYPES cfg) = Some q -> (q == 0)%Q ->
  generer_batch_transactions cfg rng clk sv n w = inr (df, w') ->
  forall t, In t df -> transaction_type t <> ty.
Proof.
  intros Hr Hs Hnd Hl Hq H t Ht Heq.
  destruct (batch_in _ _ _ _ _ _ _ _ Hs H t Ht) as (t0 & w1 & w1' & off & w2 & w2' & Hg & _ & ->).
  simpl in Heq. apply generer_transaction_type in Hg as (v & v' & Hc).
  destruct (np_choice_pos _ _ _ _ _ _ Hr Hc) as (i & pi & Hi & Hp & Hpos).
  rewrite Heq in Hi. rewrite (lookup_nth_error _ _ _ _ Hnd Hi Hp) in Hl.
  injection Hl as ->. rewrite Hq in Hpos. discriminate.
Qed.

(** [generer_montant] raises [KeyError(type)] for a type missing from
    [MONTANT_RANGES]; otherwise, when [min_val <= max_val] and the
    lognormal's [min_val + (max_val - min_val) / 3] is positive (so that
    [np.log] of it is a number), it makes one
    numpy draw and returns [min_val] (an int) when the rounded draw is at
    most [min_val], [max_val] (an int) when it is at least [max_val], and
    the rounded draw (a float) strictly between. *)
Theorem generer_montant_clamps cfg rng t w :
  (lookup t (MONTANT_RANGES cfg) = None ->
   generer_montant cfg rng t w = inl (KeyError t)) /\
  (forall mn mx, lookup t (MONTANT_RANGES cfg) = Some (mn, mx) -> mn <= mx ->
   (0 < inject_Z mn + inject_Z (mx - mn) / inject_Z 3)%Q ->
   let r := round0 (np_lognormal rng (np_calls w)
                      (inject_Z mn + inject_Z (mx - mn) / inject_Z 3) (8 # 10)) in
   generer_montant cfg rng t w =
   inr (if Qle_bool r (inject_Z mn) then PInt mn
        else if Qle_bool (inject_Z mx) r then PInt mx else PFloat r,
        mkWorld (S (np_calls w)) (py_calls w) (clock_calls w))).
Proof.
  split.
  - intros Hl. unfold generer_montant. rewrite Hl. reflexivity.
  - intros mn mx Hl Hle _ r. unfold generer_montant. rewrite Hl.
    unfold bind, np_lognormal_m, ret. fold r. do 2 f_equal.
    unfold py_max, py_min. cbn [num_val].
    assert (Hq : (inject_Z mn <= inject_Z mx)%Q) by (apply inject_Z_le_iff; exact Hle).
    destruct (Qle_bool r (inject_Z mn)) eqn:E1.
    + apply Qle_bool_iff in E1.
      destruct (qltb r (inject_Z mx)) eqn:E2; cbn [num_val].
      * replace (qltb (inject_Z mn) r) with false; [reflexivity|].
        symmetry. apply qltb_false. exact E1.
      * apply qltb_false in E2.
        replace (qltb (inject_Z mn) (inject_Z mx)) with false; [reflexivity|].
        symmetry. apply qltb_false. apply Qle_trans with r; assumption.
    + assert (E1' : (inject_Z mn < r)%Q)
        by (apply Qnot_le_lt; intros H; apply Qle_bool_iff in H; congruence).
      clear E1. rename E1' into E1.
      destruct (Qle_bool (inject_Z mx) r) eqn:E2.
      * apply Qle_bool_iff in E2.
        replace (qltb r (inject_Z mx)) with false by (symmetry; apply qltb_false; exact E2).
        cbn [num_val]. destruct (qltb (inject_Z mn) (inject_Z mx)) eqn:E3; [reflexivity|].
        apply qltb_false, (proj1 (inject_Z_le_iff mx mn)) in E3. f_equal. lia.
      * assert (E2' : (r < inject_Z mx)%Q)
          by (apply Qnot_le_lt; intros H; apply Qle_bool_iff in H; congruence).
        replace (qltb r (inject_Z mx)) with true by (symmetry; apply qltb_true; exact E2').
        cbn [num_val].
        replace (qltb (inject_Z mn) r) with true by (symmetry; apply qltb_true; exact E1).
        reflexivity.
Qed.

(** [np.random.choice(a, p=p)] with a non-empty [a], [p] of the same
    length, non-negative weights and a sum within [ATOL] of 1 succeeds with
    one draw and returns an element of [a] whose weight is positive. *)
Theorem np_choice_valid_args rng a p w :
  rng_ok rng -> a <> [] -> List.length p = List.length a ->
  (forall x, In x p -> 0 <= x)%Q -> (Qabs (qsum p - 1) <= ATOL)%Q ->
  exists i x pi,
    np_choice rng a p w = inr (x, mkWorld (S (np_calls w)) (py_calls w) (clock_calls w)) /\
    nth_error a i = Some x /\ nth_error p i = Some pi /\ (0 < pi)%Q.
Proof.
  intros Hr Ha Hl Hn Hs. apply np_choice_core; try assumption.
  - apply Bool.not_true_iff_false. intros E. apply existsb_exists in E as (x & Hx & Hq).
    apply qltb_true in Hq. apply (Qlt_not_le _ _ Hq (Hn x Hx)).
  - apply qltb_false. exact Hs.
Qed.

Lemma batch_loop_valid cfg rng clk base k w l w' :
  batch_loop cfg rng clk base k w = inr (l, w') ->
  forall t, In t l ->
  exists off w2 w2', py_randint rng 0 (7 * 24) w2 = inr (off, w2') /\
    dt_valid (base + off * HOUR_US) = true /\ timestamp t = strftime (base + off * HOUR_US).
Proof.
  revert w l. induction k as [|k IH]; simpl; intros w l H t Ht.
  - inv_ret H. destruct Ht.
  - inv_bind H. inv_bind H. inv_bind H. inv_bind H. inv_ret H.
    unfold dt_add in Hc1. destruct (dt_valid _) eqn:Ev; [|discriminate].
    inv_ret Hc1. destruct Ht as [<- | Ht].
    + do 3 eexists. split; [eassumption|]. split; [exact Ev | reflexivity].
    + eapply IH; eauto.
Qed.

Lemma batch_valid_offsets cfg rng clk sv n w df w' :
  rng_ok rng -> sort_contract sv ->
  generer_batch_transactions cfg rng clk sv n w = inr (df, w') ->
  forall t, In t df ->
  exists k, 0 <= k <= 7 * 24 /\
    dt_valid (datetime_now clk (clock_calls w) - 7 * DAY_US + k * HOUR_US) = true /\
    timestamp t = strftime (datetime_now clk (clock_calls w) - 7 * DAY_US + k * HOUR_US).
Proof.
  intros Hr Hs H t Ht. apply batch_inv in H as (pre & Hc & _ & ->).
  apply collect_inv in Hc as [w1 Hl].
  apply (Permutation_in _ (Permutation_sym (proj1 (Hs pre)))) in Ht.
  destruct (batch_loop_valid _ _ _ _ _ _ _ _ Hl t Ht) as (k & w2 & w2' & Hk & Hv & Ht').
  exists k. split; [eapply py_randint_range; eauto | auto].
Qed.

(** Rows of a batch are in chronological order: adjacent rows [i] and
    [i+1] carry the renderings of [window_start + k1] and
    [window_start + k2] hours with [0 <= k1 <= k2 <= 168]. *)
Theorem batch_chronological cfg rng clk sv n w df w' :
  rng_ok rng -> sort_contract sv ->
  Y1000_US <= datetime_now clk (clock_calls w) - 7 * DAY_US ->
  generer_batch_transactions cfg rng clk sv n w = inr (df, w') ->
  let window_start := datetime_now clk (clock_calls w) - 7 * DAY_US in
  forall i d, (S i < List.length df)%nat ->
  exists k1 k2,
    timestamp (nth i df d) = strftime (window_start + k1 * HOUR_US) /\
    timestamp (nth (S i) df d) = strftime (window_start + k2 * HOUR_US) /\
    0 <= k1 <= k2 /\ k2 <= 7 * 24.
Proof.
  intros Hr Hs Hy H ws i d Hi.
  pose proof H as H'. apply batch_inv in H' as (pre & _ & _ & Hdf).
  assert (Hle : String.leb (timestamp (nth i df d)) (timestamp (nth (S i) df d)) = true).
  { rewrite Hdf in Hi |- *. exact (sorted_adjacent ts_le _ d (proj2 (Hs pre)) i Hi). }
  destruct (batch_valid_offsets _ _ _ _ _ _ _ _ Hr Hs H (nth i df d) ltac:(apply nth_In; lia))
    as (k1 & Hk1 & Hv1 & E1).
  destruct (batch_valid_offsets _ _ _ _ _ _ _ _ Hr Hs H (nth (S i) df d) ltac:(apply nth_In; lia))
    as (k2 & Hk2 & Hv2 & E2).
  exists k1, k2. split; [exact E1|]. split; [exact E2|].
  rewrite E1, E2 in Hle. unfold String.leb in Hle.
  rewrite (strftime_compare _ _ Hv1 Hv2 ltac:(unfold HOUR_US, US in *; lia) ltac:(unfold HOUR_US, US in *; lia)), !div_US_shift in Hle.
  destruct (Z.compare _ _) eqn:Ec; [| | discriminate]; [apply Z.compare_eq_iff in Ec | rewrite Z.compare_lt_iff in Ec]; generalize dependent ((datetime_now clk (clock_calls w) - 7 * DAY_US) / US); intros q Ec; clear -Ec Hk1 Hk2; lia.
Qed.

(** ** String order *)

Lemma ascii_compare_refl a : Ascii.compare a a = Eq.
Proof. unfold Ascii.compare. apply N.compare_refl. Qed.

Lemma ascii_compare_lt_trans a b c :
  Ascii.compare a b = Lt -> Ascii.compare b c = Lt -> Ascii.compare a c = Lt.
Proof. unfold Ascii.compare. rewrite !N.compare_lt_iff. lia. Qed.

Lemma string_compare_not_gt_trans a b c :
  String.compare a b <> Gt -> String.compare b c <> Gt -> String.compare a c <> Gt.
Proof.
  revert b c. induction a as [|x a IH]; intros [|y b] [|z c] H1 H2; simpl in *; try congruence.
  destruct (Ascii.compare x y) eqn:E1; try congruence;
  destruct (Ascii.compare y z) eqn:E2; try congruence.
  - apply Ascii.compare_eq_iff in E1, E2. subst. rewrite ascii_compare_refl. eauto.
  - apply Ascii.compare_eq_iff in E1. subst. rewrite E2. congruence.
  - apply Ascii.compare_eq_iff in E2. subst. rewrite E1. congruence.
  - rewrite (ascii_compare_lt_trans _ _ _ E1 E2). congruence.
Qed.

Lemma string_leb_trans a b c :
  String.leb a b = true -> String.leb b c = true -> String.leb a c = true.
Proof.
  unfold String.leb. intros H1 H2.
  destruct (String.compare a c) eqn:E; try reflexivity.
  exfalso. apply (string_compare_not_gt_trans a b c); [| |exact E];
    intros E'; [rewrite E' in H1 | rewrite E' in H2]; discriminate.
Qed.

Lemma string_ltb_leb a b : String.ltb a b = true -> String.leb b a = false.
Proof.
  unfold String.ltb, String.leb. rewrite (String.compare_antisym b a).
  destruct (String.compare a b); simpl; congruence.
Qed.

Lemma string_leb_step x y : String.leb x y = true -> (if String.ltb x y then y else x) = y.
Proof.
  unfold String.leb, String.ltb. destruct (String.compare x y) eqn:E; intros H.
  - apply String.compare_eq_iff in E. subst. reflexivity.
  - reflexivity.
  - discriminate.
Qed.

Lemma fold_min_sorted x r :
  Sorted (fun a b => String.leb a b = true) (x :: r) ->
  fold_left (fun m y => if String.ltb y m then y else m) r x = x.
Proof.
  intros Hs. apply Sorted_StronglySorted in Hs; [|intros a b c; apply string_leb_trans].
  apply StronglySorted_inv in Hs as [_ Hf]. revert Hf. induction r as [|y r IH]; intros Hf;
    [reflexivity|].
  inversion Hf as [|? ? Hy Hf']; subst. simpl.
  destruct (String.ltb y x) eqn:E.
  - apply string_ltb_leb in E. congruence.
  - apply IH. exact Hf'.
Qed.

Lemma fold_max_sorted x r d :
  Sorted (fun a b => String.leb a b = true) (x :: r) ->
  fold_left (fun m y => if String.ltb m y then y else m) r x = last (x :: r) d.
Proof.
  revert x. induction r as [|y r IH]; intros x Hs; [reflexivity|].
  inversion Hs as [|? ? Hs' Hhd]; subst. inversion Hhd; subst.
  simpl. rewrite string_leb_step by assumption. rewrite IH by exact Hs'. reflexivity.
Qed.

Lemma sorted_map_timestamp l :
  Sorted ts_le l -> Sorted (fun a b => String.leb a b = true) (map timestamp l).
Proof.
  induction 1 as [|x l Hs IH Hhd]; simpl; constructor; [exact IH|].
  destruct Hhd; simpl; constructor. exact H.
Qed.

(** ** value_counts *)

Lemma count_str_not_in k l : ~ In k l -> count_str k l = O.
Proof.
  induction l as [|x l IH]; simpl; intros H; [reflexivity|].
  destruct (String.eqb x k) eqn:E.
  - apply String.eqb_eq in E. subst. tauto.
  - apply IH. tauto.
Qed.

Lemma count_str_in k l : In k l -> (0 < count_str k l)%nat.
Proof.
  induction l as [|x l IH]; simpl; intros H; [destruct H|].
  destruct (String.eqb x k) eqn:E; [lia|].
  destruct H as [->|H]; [rewrite String.eqb_refl in E; discriminate | auto].
Qed.

Lemma uniques_In k l : In k (uniques l) <-> In k l.
Proof.
  induction l as [|x l IH]; simpl; [tauto|].
  rewrite filter_In, IH, negb_true_iff, String.eqb_neq.
  split.
  - intros [H|[H _]]; auto.
  - intros [H|H]; [auto|]. destruct (string_dec x k); [auto|right; split; auto].
Qed.

Lemma uniques_NoDup l : NoDup (uniques l).
Proof.
  induction l as [|x l IH]; simpl; constructor.
  - rewrite filter_In, negb_true_iff, String.eqb_refl. intros [_ H]. discriminate.
  - apply NoDup_filter. exact IH.
Qed.

Lemma sum_split_one (f : string -> nat) x u :
  NoDup u ->
  list_sum (map f u) =
  ((if in_dec string_dec x u then f x else O) +
   list_sum (map f (filter (fun y => negb (String.eqb y x)) u)))%nat.
Proof.
  induction u as [|y u IH]; intros Hnd; simpl; [destruct (in_dec string_dec x []); reflexivity|].
  inversion Hnd as [|? ? Hni Hnd']; subst.
  destruct (String.eqb y x) eqn:E.
  - apply String.eqb_eq in E. subst. simpl.
    destruct (string_dec x x) as [Hxx|]; [|congruence].
    destruct (in_dec string_dec x u) as [Hin|_]; [contradiction|].
    f_equal. rewrite IH by exact Hnd'.
    destruct (in_dec string_dec x u); [contradiction|].
    reflexivity.
  - apply String.eqb_neq in E. simpl. rewrite IH by exact Hnd'.
    destruct (string_dec y x) as [|Hne]; [congruence|].
    destruct (in_dec string_dec x u); lia.
Qed.

Lemma count_str_cons_other k x l : String.eqb x k = false -> count_str k (x :: l) = count_str k l.
Proof. simpl. intros ->. reflexivity. Qed.

Lemma map_filter_ext (f g : string -> nat) x u :
  (forall k, String.eqb k x = false -> f k = g k) ->
  map f (filter (fun y => negb (String.eqb y x)) u) =
  map g (filter (fun y => negb (String.eqb y x)) u).
Proof.
  intros H. induction u as [|y u IH]; simpl; [reflexivity|].
  destruct (String.eqb y x) eqn:E; simpl; [exact IH|]. rewrite H by exact E. f_equal. exact IH.
Qed.

Lemma uniques_counts_sum l :
  list_sum (map (fun k => count_str k l) (uniques l)) = List.length l.
Proof.
  induction l as [|x l IH]; [reflexivity|].
  cbn [uniques map list_sum fold_right].
  cbn [count_str]. rewrite String.eqb_refl.
  rewrite (map_filter_ext (fun k => count_str k (x :: l)) (fun k => count_str k l))
    by (intros k E; simpl; rewrite String.eqb_sym, E; reflexivity).
  rewrite (sum_split_one (fun k => count_str k l) x (uniques l) (uniques_NoDup l)) in IH.
  destruct (in_dec string_dec x (uniques l)) as [_|Hn].
  - unfold list_sum in *. simpl. lia.
  - rewrite uniques_In in Hn. rewrite count_str_not_in by exact Hn. unfold list_sum in *. simpl. lia.
Qed.

Lemma list_sum_perm (l1 l2 : list nat) : Permutation l1 l2 -> list_sum l1 = list_sum l2.
Proof. induction 1; simpl; lia. Qed.

Lemma ins_count_perm x l : Permutation (x :: l) (ins_count x l).
Proof.
  induction l as [|y l IH]; simpl; [reflexivity|].
  destruct (Nat.leb (snd y) (snd x)); [reflexivity|].
  rewrite perm_swap. constructor. exact IH.
Qed.

Lemma ins_count_sorted x l :
  Sorted (fun a b => (snd b <= snd a)%nat) l ->
  Sorted (fun a b => (snd b <= snd a)%nat) (ins_count x l).
Proof.
  induction 1 as [|y l Hs IH Hhd]; simpl; [repeat constructor|].
  destruct (Nat.leb (snd y) (snd x)) eqn:E.
  - apply Nat.leb_le in E. constructor; [constructor; assumption | constructor; exact E].
  - apply Nat.leb_gt in E. constructor; [exact IH|].
    destruct l as [|z l]; simpl.
    + constructor. lia.
    + inversion Hhd; subst. destruct (Nat.leb (snd z) (snd x)); constructor; simpl in *; lia.
Qed.

Lemma sort_counts_contract : counts_contract sort_counts.
Proof.
  intros l. unfold sort_counts. induction l as [|x l [IHp IHs]]; simpl.
  - split; constructor.
  - split.
    + rewrite <- ins_count_perm. constructor. exact IHp.
    + apply ins_count_sorted. exact IHs.
Qed.

Lemma value_counts_facts sc col :
  counts_contract sc ->
  NoDup (map fst (value_counts sc col)) /\
  (forall k, In k (map fst (value_counts sc col)) <-> In k col) /\
  (forall k c, In (k, c) (value_counts sc col) -> c = count_str k col /\ (0 < c)%nat) /\
  list_sum (map snd (value_counts sc col)) = List.length col.
Proof.
  intros Hsc. unfold value_counts. destruct (Hsc (value_counts_raw col)) as [Hp _].
  assert (Hfst : map fst (value_counts_raw col) = uniques col)
    by (unfold value_counts_raw; rewrite map_map; apply map_id).
  split; [|split; [|split]].
  - apply (Permutation_NoDup (Permutation_map fst Hp)). rewrite Hfst. apply uniques_NoDup.
  - intros k. rewrite <- (uniques_In k col), <- Hfst. split; apply Permutation_in;
      [apply Permutation_sym|]; apply Permutation_map; exact Hp.
  - intros k c Hin. apply (Permutation_in _ (Permutation_sym Hp)) in Hin.
    unfold value_counts_raw in Hin. apply in_map_iff in Hin as (k' & Hk & Hu).
    injection Hk as <- <-. split; [reflexivity|]. apply count_str_in, uniques_In, Hu.
  - rewrite <- (list_sum_perm _ _ (Permutation_map snd Hp)).
    unfold value_counts_raw. rewrite map_map. apply uniques_counts_sum.
Qed.

Lemma last_map {A B} (f : A -> B) l d : last (map f l) (f d) = f (last l d).
Proof.
  induction l as [|x l IH]; [reflexivity|]. destruct l as [|y l]; [reflexivity|].
  exact IH.
Qed.

Lemma batch_length cfg rng clk sv n w df w' :
  sort_contract sv ->
  generer_batch_transactions cfg rng clk sv n w = inr (df, w') -> List.length df = n.
Proof.
  intros Hs H. apply batch_inv in H as (pre & Hc & _ & ->).
  apply collect_inv in Hc as [w1 Hl].
  rewrite <- (Permutation_length (proj1 (Hs pre))). exact (batch_loop_length _ _ _ _ _ _ _ _ Hl).
Qed.

Lemma batch_sorted_nonempty cfg rng clk sv n w df w' :
  sort_contract sv ->
  generer_batch_transactions cfg rng clk sv n w = inr (df, w') ->
  df <> [] /\ Sorted ts_le df.
Proof.
  intros Hs H. apply batch_inv in H as (pre & _ & Hne & ->). destruct (Hs pre) as [Hp Hso].
  split; [|exact Hso]. intros E. rewrite E in Hp. apply Permutation_sym, Permutation_nil in Hp.
  contradiction.
Qed.

(** The period shown by [afficher_statistiques] for a generated batch is
    the timestamp of its first row and that of its last row. *)
Theorem stats_period_first_last cfg rng clk sv n w df w' sc d :
  sort_contract sv ->
  generer_batch_transactions cfg rng clk sv n w = inr (df, w') ->
  periode (statistiques sc df) = Some (timestamp (hd d df), timestamp (last df d)).
Proof.
  intros Hs H. destruct (batch_sorted_nonempty _ _ _ _ _ _ _ _ Hs H) as [Hne Hso].
  destruct df as [|t r]; [congruence|].
  apply sorted_map_timestamp in Hso. unfold statistiques, periode. cbn [map series_min series_max].
  rewrite fold_min_sorted by exact Hso.
  rewrite (fold_max_sorted _ _ (timestamp d)) by exact Hso.
  change (timestamp t :: map timestamp r) with (map timestamp (t :: r)).
  rewrite last_map. reflexivity.
Qed.

(** [value_counts()] lists each distinct value of the column exactly once,
    with its number of occurrences (always positive); the counts add up to
    the length of the column. *)
Theorem value_counts_exact sc col :
  counts_contract sc ->
  NoDup (map fst (value_counts sc col)) /\
  (forall k, In k (map fst (value_counts sc col)) <-> In k col) /\
  (forall k c, In (k, c) (value_counts sc col) -> c = count_str k col /\ (0 < c)%nat) /\
  list_sum (map snd (value_counts sc col)) = List.length col.
Proof. apply value_counts_facts. Qed.

Lemma value_counts_keys_from sc (col : list string) (src : list string) :
  counts_contract sc -> (forall x, In x col -> In x src) ->
  (forall k c, In (k, c) (value_counts sc col) -> In k src).
Proof.
  intros Hsc Hsub k c Hin. apply Hsub.
  apply (proj1 (proj1 (proj2 (value_counts_facts sc col Hsc)) k)).
  apply in_map_iff. exists (k, c). auto.
Qed.

(** For a generated batch of [n] rows, the statistics report [n]
    transactions; the cities, types and operators listed come from the
    configuration, and each breakdown's counts add up to [n]. *)
Theorem batch_stats cfg rng clk sv sc n w df w' :
  sort_contract sv -> counts_contract sc ->
  generer_batch_transactions cfg rng clk sv n w = inr (df, w') ->
  let s := statistiques sc df in
  nb_transactions s = n /\
  (forall k c, In (k, c) (par_ville s) -> In k (VILLES cfg)) /\
  (forall k c, In (k, c) (par_type s) -> In k (map fst (TRANSACTION_TYPES cfg))) /\
  (forall k c, In (k, c) (par_operateur s) -> In k (OPERATEURS cfg)) /\
  list_sum (map snd (par_ville s)) = n /\
  list_sum (map snd (par_type s)) = n /\
  list_sum (map snd (par_operateur s)) = n.
Proof.
  intros Hs Hsc H s. pose proof (batch_length _ _ _ _ _ _ _ _ Hs H) as Hlen.
  assert (Hf : forall t, In t df ->
            In (city t) (VILLES cfg) /\ In (operator t) (OPERATEURS cfg) /\
            In (transaction_type t) (map fst (TRANSACTION_TYPES cfg))).
  { intros t Ht.
    destruct (batch_in _ _ _ _ _ _ _ _ Hs H t Ht) as (t0 & w1 & w1' & off & w2 & w2' & Hg & _ & ->).
    apply generer_transaction_inv in Hg as (Hty & _ & Hc & Ho & _). simpl. auto. }
  unfold s, statistiques; cbn [nb_transactions par_ville par_type par_operateur].
  split; [exact Hlen|].
  split; [|split; [|split]].
  - apply value_counts_keys_from; [exact Hsc|].
    intros x Hx. apply in_map_iff in Hx as (t & <- & Ht). apply Hf, Ht.
  - apply value_counts_keys_from; [exact Hsc|].
    intros x Hx. apply in_map_iff in Hx as (t & <- & Ht). apply Hf, Ht.
  - apply value_counts_keys_from; [exact Hsc|].
    intros x Hx. apply in_map_iff in Hx as (t & <- & Ht). apply Hf, Ht.
  - rewrite !(proj2 (proj2 (proj2 (value_counts_facts _ _ Hsc)))), !length_map. auto.
Qed.

(** ** Reading the export back *)

Lemma string_app_nil s : s ++ "" = s.
Proof. induction s as [|c s IH]; simpl; congruence. Qed.

Lemma concat_empty_cons x l : String.concat "" (x :: l) = x ++ String.concat "" l.
Proof. destruct l as [|y l]; [symmetry; apply string_app_nil | reflexivity]. Qed.

Lemma split_on_free c a : count_char c a = O -> split_on c a = [a].
Proof.
  induction a as [|d a IH]; [reflexivity|]. cbn [count_char split_on].
  rewrite Ascii.eqb_sym. destruct (Ascii.eqb d c); [discriminate|].
  intros H. rewrite IH by exact H. reflexivity.
Qed.

Lemma split_on_app c a b :
  count_char c a = O -> split_on c (a ++ String c b) = a :: split_on c b.
Proof.
  induction a as [|d a IH]; cbn [count_char split_on append].
  - rewrite Ascii.eqb_refl. reflexivity.
  - rewrite Ascii.eqb_sym. destruct (Ascii.eqb d c); [discriminate|].
    intros H. rewrite IH by exact H. reflexivity.
Qed.

Lemma split_on_lines c rows :
  Forall (fun r => count_char c r = O) rows ->
  split_on c (String.concat "" (map (fun r => r ++ String c "") rows)) = (rows ++ [""])%list.
Proof.
  induction 1 as [|r rows Hr Hrs IH]; [reflexivity|].
  cbn [map]. rewrite concat_empty_cons, string_app_assoc. cbn [append].
  rewrite split_on_app by exact Hr. rewrite IH. reflexivity.
Qed.

Lemma split_on_row c fs last :
  Forall (fun f => count_char c f = O) fs -> count_char c last = O ->
  split_on c (fold_right (fun f acc => f ++ String c acc) last fs) = (fs ++ [last])%list.
Proof.
  intros Hfs Hl. induction Hfs as [|f fs Hf Hfs IH]; simpl.
  - apply split_on_free. exact Hl.
  - rewrite split_on_app by exact Hf. rewrite IH. reflexivity.
Qed.

Definition field_free (as_int : bool) (t : Transaction) : Prop :=
  Forall (fun f => count_char comma f = O /\ count_char lf f = O /\ count_char dquote f = O)
    (csv_fields as_int t).

Lemma csv_needs_quote_clean s :
  count_char comma s = O -> count_char lf s = O -> count_char dquote s = O ->
  csv_needs_quote s = false.
Proof.
  induction s as [|d s IH]; cbn [count_char csv_needs_quote]; [reflexivity|].
  destruct (Ascii.eqb comma d) eqn:E1; [discriminate|].
  destruct (Ascii.eqb lf d) eqn:E2; [discriminate|].
  destruct (Ascii.eqb dquote d) eqn:E3; [discriminate|].
  intros H1 H2 H3. rewrite (Ascii.eqb_sym d comma), (Ascii.eqb_sym d dquote), (Ascii.eqb_sym d lf).
  rewrite E1, E2, E3, IH by assumption. reflexivity.
Qed.

Lemma csv_quote_clean s :
  count_char comma s = O /\ count_char lf s = O /\ count_char dquote s = O -> csv_quote s = s.
Proof.
  intros (H1 & H2 & H3). unfold csv_quote. rewrite csv_needs_quote_clean by assumption.
  reflexivity.
Qed.

Lemma csv_row_fields as_int t :
  field_free as_int t ->
  csv_row as_int t =
  fold_right (fun f acc => f ++ String comma acc) (status t)
    [transaction_id t; timestamp t; user_id t; render_amount as_int (amount t);
     city t; transaction_type t; operator t].
Proof.
  intros Hf. unfold field_free, csv_fields in Hf.
  repeat match goal with H : Forall _ (_ :: _) |- _ => inversion_clear H end.
  unfold csv_row. rewrite !csv_quote_clean by assumption. reflexivity.
Qed.

Lemma split_csv_row as_int t :
  field_free as_int t -> split_on comma (csv_row as_int t) = csv_fields as_int t.
Proof.
  intros Hf. rewrite (csv_row_fields _ _ Hf). unfold field_free, csv_fields in Hf.
  apply Forall_app with (l1 := [_; _; _; _; _; _; _]) (l2 := [_]) in Hf.
  destruct Hf as [Hf Hl]. apply split_on_row.
  - eapply Forall_impl; [|exact Hf]. simpl. tauto.
  - inversion Hl; tauto.
Qed.

Lemma count_char_app_zero c a b :
  count_char c a = O -> count_char c b = O -> count_char c (a ++ b) = O.
Proof. intros Ha Hb. rewrite count_char_app, Ha, Hb. reflexivity. Qed.

Lemma fold_row_count c fs last :
  Ascii.eqb c comma = false ->
  Forall (fun f => count_char c f = O) fs -> count_char c last = O ->
  count_char c (fold_right (fun f acc => f ++ String comma acc) last fs) = O.
Proof.
  intros Hc Hfs Hl. induction Hfs as [|f fs Hf Hfs IH]; simpl; [exact Hl|].
  apply count_char_app_zero; [exact Hf|]. cbn [count_char]. rewrite Hc. exact IH.
Qed.

Lemma csv_row_no_lf as_int t : field_free as_int t -> count_char lf (csv_row as_int t) = O.
Proof.
  intros Hf. rewrite (csv_row_fields _ _ Hf). unfold field_free, csv_fields in Hf.
  apply Forall_app with (l1 := [_; _; _; _; _; _; _]) (l2 := [_]) in Hf.
  destruct Hf as [Hf Hl]. apply fold_row_count; [reflexivity| |].
  - eapply Forall_impl; [|exact Hf]. simpl. tauto.
  - inversion Hl; tauto.
Qed.

Lemma newline_app x : newline ++ x = String lf x.
Proof. reflexivity. Qed.

Lemma split_to_csv df :
  (forall t, In t df -> field_free (amount_column_int df) t) ->
  map (split_on comma) (split_on lf (to_csv df)) =
  (header_fields :: map (csv_fields (amount_column_int df)) df ++ [[""]])%list.
Proof.
  intros Hf. unfold to_csv. cbv zeta. set (b := amount_column_int df) in *.
  replace (map (fun t => csv_row b t ++ newline) df)
    with (map (fun r => r ++ String lf "") (map (csv_row b) df))
    by (rewrite map_map; reflexivity).
  rewrite newline_app, split_on_app by reflexivity.
  rewrite split_on_lines.
  - cbn [map]. rewrite map_app, map_map. cbn [map].
    rewrite (map_ext_in _ (csv_fields b) df) by (intros t Ht; apply split_csv_row, Hf, Ht).
    reflexivity.
  - apply Forall_forall. intros r Hr. apply in_map_iff in Hr as (t & <- & Ht).
    apply csv_row_no_lf, Hf, Ht.
Qed.

Lemma all_digits_count c s : is_digit c = false -> all_digits s = true -> count_char c s = O.
Proof.
  intros Hc. induction s as [|d s IH]; cbn [all_digits count_char]; [reflexivity|].
  intros H. apply andb_true_iff in H as [Hd Hs].
  destruct (Ascii.eqb c d) eqn:E.
  - apply Ascii.eqb_eq in E. subst. congruence.
  - apply IH, Hs.
Qed.

Lemma str_int_count c n :
  is_digit c = false -> Ascii.eqb c "-" = false -> count_char c (str_int n) = O.
Proof.
  intros Hd Hm. unfold str_int. destruct (n <? 0) eqn:E.
  - apply Z.ltb_lt in E. cbn [append count_char]. rewrite Hm.
    apply all_digits_count; [exact Hd|]. apply digits_all_digits. lia.
  - apply Z.ltb_ge in E. apply all_digits_count; [exact Hd|]. apply digits_all_digits. lia.
Qed.

Lemma repeat_zero_count c k :
  is_digit c = false -> count_char c (String.concat "" (repeat "0" k)) = O.
Proof.
  intros Hc. induction k as [|k IH]; [reflexivity|].
  cbn [repeat]. rewrite concat_empty_cons, count_char_app, IH. cbn [count_char].
  destruct (Ascii.eqb c "0") eqn:E; [|reflexivity].
  apply Ascii.eqb_eq in E. subst. discriminate.
Qed.

Lemma pad_str_int_count c w n :
  is_digit c = false -> Ascii.eqb c "-" = false -> count_char c (pad_left w (str_int n)) = O.
Proof.
  intros Hd Hm. unfold pad_left. rewrite count_char_app, repeat_zero_count, str_int_count; auto.
Qed.

Lemma sep_cases c : c = comma \/ c = lf \/ c = dquote ->
  is_digit c = false /\ Ascii.eqb c "-" = false.
Proof. intros [-> | [-> | ->]]; split; reflexivity. Qed.

Ltac count_pieces Hp :=
  repeat (apply count_char_app_zero; [first [apply Hp | assumption | reflexivity] |]);
  first [apply Hp | assumption | reflexivity].

Lemma strftime_sep_free c t : c = comma \/ c = lf \/ c = dquote -> count_char c (strftime t) = O.
Proof.
  intros Hc. destruct (sep_cases c Hc) as [Hd Hm].
  assert (Hp : forall w n, count_char c (pad_left w (str_int n)) = O)
    by (intros; apply pad_str_int_count; assumption).
  unfold strftime. destruct (dt_date t) as [[y mo] d].
  apply count_char_app_zero; [apply str_int_count; assumption|].
  destruct Hc as [-> | [-> | ->]]; count_pieces Hp.
Qed.

Lemma transaction_id_sep_free c ms suffix :
  c = comma \/ c = lf \/ c = dquote -> count_char c (make_transaction_id ms suffix) = O.
Proof.
  intros Hc. destruct (sep_cases c Hc) as [Hd Hm].
  assert (Hp : forall n, count_char c (str_int n) = O)
    by (intros; apply str_int_count; assumption).
  unfold make_transaction_id. destruct Hc as [-> | [-> | ->]]; count_pieces Hp.
Qed.

Lemma user_id_sep_free c p k :
  c = comma \/ c = lf \/ c = dquote -> In p prefixes -> count_char c ("user_" ++ (p ++ str_int k)) = O.
Proof.
  intros Hc Hpre. destruct (sep_cases c Hc) as [Hd Hm].
  assert (Hp : forall n, count_char c (str_int n) = O)
    by (intros; apply str_int_count; assumption).
  assert (Hq : count_char c p = O)
    by (simpl in Hpre; destruct Hc as [-> | [-> | ->]];
        repeat (destruct Hpre as [<- | Hpre]; [reflexivity|]); destruct Hpre).
  destruct Hc as [-> | [-> | ->]]; count_pieces Hp.
Qed.

Lemma render_amount_sep_free c b a :
  c = comma \/ c = lf \/ c = dquote -> count_char c (render_amount b a) = O.
Proof.
  intros Hc. destruct (sep_cases c Hc) as [Hd Hm].
  assert (Hp : forall n, count_char c (str_int n) = O)
    by (intros; apply str_int_count; assumption).
  destruct a as [z|q]; simpl render_amount; [destruct b|];
    destruct Hc as [-> | [-> | ->]]; count_pieces Hp.
Qed.

Lemma sep_free_in c l x :
  forallb sep_free l = true -> In x l -> c = comma \/ c = lf \/ c = dquote -> count_char c x = O.
Proof.
  intros Hl Hx Hc. rewrite forallb_forall in Hl. specialize (Hl x Hx).
  unfold sep_free in Hl. apply andb_true_iff in Hl as [Hl H3]. apply andb_true_iff in Hl as [H1 H2].
  apply Nat.eqb_eq in H1, H2, H3. destruct Hc as [-> | [-> | ->]]; assumption.
Qed.

(** When the configured city, operator and type names contain no comma,
    no double quote and no newline, and every amount bound is below 2^53 in
    magnitude (so that the amount is written as [render_amount] writes it),
    no field of the CSV written by [main] is quoted: the file splits on
    newlines into the header, one line per row in order, and a final empty
    string; each line splits on commas into the row's eight fields. *)
Theorem csv_export_round_trip cfg rng clk sv n w s w' :
  sort_contract sv -> ranges_exact cfg = true ->
  forallb sep_free (VILLES cfg) = true ->
  forallb sep_free (OPERATEURS cfg) = true ->
  forallb sep_free (map fst (TRANSACTION_TYPES cfg)) = true ->
  run_pipeline cfg rng clk sv n w = inr (s, w') ->
  exists df, generer_batch_transactions cfg rng clk sv n w = inr (df, w') /\
    map (split_on comma) (split_on lf s) =
    (header_fields :: map (csv_fields (amount_column_int df)) df ++ [[""]])%list.
Proof.
  intros Hs _ Hv Ho Hty H. unfold run_pipeline in H. inv_bind H. inv_ret H.
  exists x. split; [exact Hc|]. apply split_to_csv. intros t Ht.
  destruct (batch_in _ _ _ _ _ _ _ _ Hs Hc t Ht) as (t0 & w1 & w1' & off & w2 & w2' & Hg & _ & ->).
  apply generer_transaction_inv in Hg
    as (HT & _ & HC & HO & (wu & wu' & Hu) & (k & suffix & ws & ws' & Hid & _) & Hst).
  apply generer_user_id_inv in Hu as (p & ku & Hp & Hu).
  unfold field_free, csv_fields. cbn [transaction_id timestamp user_id amount city
    transaction_type operator status set_timestamp].
  repeat constructor; try rewrite Hid; try rewrite Hu; try rewrite Hst;
    first [ apply transaction_id_sep_free | apply strftime_sep_free
          | apply user_id_sep_free | apply render_amount_sep_free
          | reflexivity | apply (sep_free_in _ _ _ Hv HC) | apply (sep_free_in _ _ _ Ho HO)
          | apply (sep_free_in _ _ _ Hty HT) ]; eauto.
Qed.


(** ** numpy's quicksort on at most 17 entries *)

Section NpSortSmall.
Local Open Scope nat_scope.
Local Open Scope list_scope.
Variable v : list string.

Lemma get_mid p y r n : n = List.length p -> get (p ++ y :: r) n = y.
Proof. intros ->. apply nth_middle. Qed.

Lemma set_nth_mid p y r x n : n = List.length p -> set_nth (p ++ y :: r) n x = p ++ x :: r.
Proof. intros ->. induction p as [|z p IH]; simpl; [reflexivity|]. rewrite IH. reflexivity. Qed.

Lemma snoc_app {A} (q : list A) y l : (q ++ [y]) ++ l = q ++ y :: l.
Proof. rewrite <- app_assoc. reflexivity. Qed.

Lemma insr_length x rp : List.length (insr v x rp) = S (List.length rp).
Proof.
  induction rp as [|y r IH]; simpl; [reflexivity|].
  destruct (npy_lt _ _); simpl; [rewrite IH|]; reflexivity.
Qed.

Lemma shift_down_spec x fuel p1 w sh s a' pj :
  List.length p1 <= fuel ->
  shift_down v fuel (npy_key v x) 0 (List.length p1) (p1 ++ w :: sh ++ s) = (a', pj) ->
  set_nth a' pj x = rev (insr v x (rev p1)) ++ sh ++ s.
Proof.
  revert fuel w sh. induction p1 as [|y q IH] using rev_ind; intros fuel w sh Hf H.
  - destruct fuel; simpl in H; injection H as <- <-; reflexivity.
  - rewrite length_app in Hf, H. cbn [List.length] in Hf, H.
    destruct fuel as [|f]; [lia|].
    replace (List.length q + 1) with (S (List.length q)) in H by lia.
    cbn [shift_down] in H. rewrite snoc_app in H.
    replace (S (List.length q) - 1) with (List.length q) in H by lia.
    rewrite (get_mid q y) in H by reflexivity.
    rewrite rev_app_distr. cbn [rev app insr].
    destruct (npy_lt (npy_key v x) (npy_key v y)) eqn:E; cbn [andb Nat.ltb Nat.leb] in H.
    + rewrite <- snoc_app, (set_nth_mid (q ++ [y]) w) in H
        by (rewrite length_app; simpl; lia).
      rewrite snoc_app in H.
      apply (IH f y (y :: sh)) in H; [|lia].
      rewrite H. cbn [rev]. rewrite <- app_assoc. reflexivity.
    + injection H as <- <-. rewrite <- snoc_app, (set_nth_mid (q ++ [y]) w)
        by (rewrite length_app; simpl; lia).
      cbn [rev]. rewrite rev_involutive, <- !app_assoc. reflexivity.
Qed.

Lemma insertion_from_spec fuel rp rest pr :
  List.length rest <= fuel -> S pr = List.length rp + List.length rest ->
  insertion_from v fuel 0 (List.length rp) pr (rev rp ++ rest) =
  rev (fold_left (fun acc x => insr v x acc) rest rp).
Proof.
  revert fuel rp. induction rest as [|x r IH]; intros fuel rp Hf Hpr.
  - cbn [List.length] in Hpr. rewrite app_nil_r.
    destruct fuel; cbn [insertion_from]; [reflexivity|].
    replace (List.length rp <=? pr) with false by (symmetry; apply Nat.leb_gt; lia).
    reflexivity.
  - cbn [List.length] in Hf, Hpr. destruct fuel as [|f]; [lia|]. cbn [insertion_from].
    replace (List.length rp <=? pr) with true by (symmetry; apply Nat.leb_le; lia).
    rewrite (get_mid (rev rp) x r) by (rewrite length_rev; reflexivity).
    destruct (shift_down v (List.length rp) (npy_key v x) 0 (List.length rp) (rev rp ++ x :: r))
      as [a' pj] eqn:E.
    rewrite <- (length_rev rp) in E at 2.
    apply (shift_down_spec x (List.length rp) (rev rp) x [] r a' pj) in E;
      [|rewrite length_rev; lia].
    rewrite E, rev_involutive. cbn [app fold_left].
    rewrite <- (insr_length x rp). apply IH; [lia|]. rewrite insr_length. lia.
Qed.

Lemma npy_aquicksort_small :
  1 <= List.length v <= 17 ->
  npy_aquicksort v = rev (fold_left (fun acc x => insr v x acc) (seq 0 (List.length v)) []).
Proof.
  intros Hn. unfold npy_aquicksort. cbn [aquicksort_loop].
  replace ((2 * npy_get_msb (List.length v) <? 0)%Z) with false
    by (symmetry; apply Z.ltb_ge; unfold npy_get_msb; lia).
  assert (Hs : (SMALL_QUICKSORT <? List.length v - 1 - 0) = false)
    by (apply Nat.ltb_ge; unfold SMALL_QUICKSORT; lia).
  destruct (List.length (seq 0 (List.length v))) as [|m]; cbn [partition_loop]; [|rewrite Hs];
  unfold insertion_sort_seg; destruct (List.length v) as [|n] eqn:En; try lia;
  change (seq 0 (S n)) with (rev [0] ++ seq 1 n); change 1 with (List.length [0]) at 2;
  (rewrite insertion_from_spec; [reflexivity | rewrite length_seq; lia | simpl; rewrite length_seq; lia]).
Qed.

Lemma insr_in x rp z : In z (insr v x rp) -> z = x \/ In z rp.
Proof.
  induction rp as [|y r IH]; simpl.
  - intros [H|[]]. left. symmetry. exact H.
  - destruct (npy_lt _ _); simpl; intros [H|H].
    + right. left. exact H.
    + destruct (IH H) as [H'|H']; [left; exact H' | right; right; exact H'].
    + left. symmetry. exact H.
    + right. exact H.
Qed.

Lemma fold_insr_in idx rp z :
  In z (fold_left (fun acc x => insr v x acc) idx rp) -> In z idx \/ In z rp.
Proof.
  revert rp. induction idx as [|x idx IH]; simpl; intros rp H; [tauto|].
  destruct (IH _ H) as [H'|H']; [tauto|].
  destruct (insr_in x rp z H') as [->|H2]; [left; left; reflexivity | tauto].
Qed.

End NpSortSmall.

Section Rows.
Local Open Scope list_scope.
Variable l : list Transaction.
Variable d : Transaction.

Let row (i : nat) : Transaction := nth i l d.

Lemma key_row i : (i < List.length l)%nat -> npy_key (map timestamp l) i = timestamp (row i).
Proof.
  intros Hi. unfold npy_key, row. rewrite (nth_indep _ "" (timestamp d)) by (rewrite length_map; exact Hi).
  apply map_nth.
Qed.

Lemma map_insr x rp :
  (x < List.length l)%nat -> Forall (fun i => i < List.length l)%nat rp ->
  map row (insr (map timestamp l) x rp) = insr_rows (row x) (map row rp).
Proof.
  intros Hx. induction 1 as [|y r Hy Hr IH]; simpl; [reflexivity|].
  rewrite (key_row x Hx), (key_row y Hy).
  destruct (npy_lt _ _); simpl; [rewrite IH|]; reflexivity.
Qed.

Lemma map_fold_insr idx rp :
  Forall (fun i => i < List.length l)%nat idx -> Forall (fun i => i < List.length l)%nat rp ->
  map row (fold_left (fun acc x => insr (map timestamp l) x acc) idx rp) =
  fold_left (fun acc x => insr_rows x acc) (map row idx) (map row rp).
Proof.
  intros Hidx. revert rp. induction Hidx as [|x idx Hx Hidx IH]; intros rp Hrp; simpl; [reflexivity|].
  rewrite <- map_insr by assumption. apply IH.
  apply Forall_forall. intros z Hz. destruct (insr_in (map timestamp l) x rp z Hz) as [->|Hz']; [exact Hx|].
  rewrite Forall_forall in Hrp. apply Hrp, Hz'.
Qed.

Lemma take_rows_map idx :
  Forall (fun i => i < List.length l)%nat idx -> take_rows l idx = map row idx.
Proof.
  induction 1 as [|i idx Hi _ IH]; [reflexivity|]. unfold take_rows in *. simpl.
  rewrite (nth_error_nth' l d Hi). simpl. rewrite IH. reflexivity.
Qed.

Lemma map_row_seq : map row (seq 0 (List.length l)) = l.
Proof.
  unfold row. clear. induction l as [|t r IH]; [reflexivity|].
  cbn [List.length seq map nth]. f_equal. rewrite <- seq_shift, map_map. exact IH.
Qed.

End Rows.

Section RowSort.
Local Open Scope list_scope.

Lemma pandas_sort_values_small l :
  (1 <= List.length l <= 17)%nat -> pandas_sort_values l = isort_rows l.
Proof.
  intros Hn. destruct l as [|d r]; [simpl in Hn; lia|].
  set (l := d :: r) in *. unfold pandas_sort_values, isort_rows.
  rewrite npy_aquicksort_small by (rewrite length_map; exact Hn).
  rewrite length_map.
  assert (Hall : forall z, In z (fold_left (fun acc x => insr (map timestamp l) x acc)
                                   (seq 0 (List.length l)) []) -> (z < List.length l)%nat).
  { intros z Hz. destruct (fold_insr_in (map timestamp l) _ [] z Hz) as [H|[]]. apply in_seq in H. lia. }
  rewrite (take_rows_map l d) by (apply Forall_forall; intros z Hz; apply Hall, in_rev, Hz).
  rewrite map_rev, (map_fold_insr l d) by (apply Forall_forall; intros z Hz;
    first [apply in_seq in Hz; lia | destruct Hz]).
  rewrite map_row_seq. reflexivity.
Qed.

(** ** The list insertion sort: a stable sort by timestamp *)

Lemma npy_lt_le a b : npy_lt a b = true -> String.leb a b = true.
Proof. unfold npy_lt, String.leb. destruct (String.compare a b); congruence. Qed.

Lemma npy_lt_false a b : npy_lt a b = false -> String.leb b a = true.
Proof.
  unfold npy_lt, String.leb. rewrite (String.compare_antisym b a).
  destruct (String.compare a b); simpl; congruence.
Qed.

Lemma npy_lt_irrefl a : npy_lt a a = false.
Proof. unfold npy_lt. rewrite string_compare_refl. reflexivity. Qed.

Lemma insr_rows_perm x rp : Permutation (insr_rows x rp) (x :: rp).
Proof.
  induction rp as [|y r IH]; simpl; [reflexivity|].
  destruct (npy_lt _ _); [|reflexivity].
  rewrite IH. apply perm_swap.
Qed.

Lemma fold_insr_rows_perm l rp :
  Permutation (fold_left (fun acc x => insr_rows x acc) l rp) (l ++ rp).
Proof.
  revert rp. induction l as [|x l IH]; intros rp; simpl; [reflexivity|].
  rewrite IH, insr_rows_perm. symmetry. apply Permutation_middle.
Qed.

Lemma isort_rows_perm l : Permutation l (isort_rows l).
Proof.
  unfold isort_rows. rewrite <- Permutation_rev, fold_insr_rows_perm, app_nil_r. reflexivity.
Qed.

Lemma insr_rows_sorted x rp :
  Sorted ts_ge rp ->
  Sorted ts_ge (insr_rows x rp) /\
  (forall h, HdRel ts_ge h rp -> ts_ge h x -> HdRel ts_ge h (insr_rows x rp)).
Proof.
  induction rp as [|y r IH]; simpl; intros Hs.
  - split; [repeat constructor|]. intros h _ H. constructor. exact H.
  - inversion Hs as [|? ? Hr Hyr]; subst.
    destruct (npy_lt (timestamp x) (timestamp y)) eqn:E.
    + destruct (IH Hr) as [IHs IHh]. split.
      * constructor; [exact IHs|]. apply IHh; [exact Hyr|]. apply npy_lt_le, E.
      * intros h Hh _. inversion Hh; subst. constructor. assumption.
    + split.
      * constructor; [constructor; assumption|]. constructor. apply npy_lt_false, E.
      * intros h _ Hh. constructor. exact Hh.
Qed.

Lemma fold_insr_rows_sorted l rp :
  Sorted ts_ge rp -> Sorted ts_ge (fold_left (fun acc x => insr_rows x acc) l rp).
Proof.
  revert rp. induction l as [|x l IH]; intros rp Hs; simpl; [exact Hs|].
  apply IH, insr_rows_sorted, Hs.
Qed.

Lemma sorted_snoc {A} (R : A -> A -> Prop) l y x :
  Sorted R (l ++ [y]) -> R y x -> Sorted R (l ++ [y; x]).
Proof.
  induction l as [|a l IH]; simpl; intros Hs Hyx.
  - repeat constructor. exact Hyx.
  - inversion Hs as [|? ? Hl Ha]; subst. constructor; [apply IH; assumption|].
    destruct l as [|b l]; simpl in *; inversion Ha; subst; constructor; assumption.
Qed.

Lemma sorted_rev_ge l : Sorted ts_ge l -> Sorted ts_le (rev l).
Proof.
  induction 1 as [|x l Hl IH Hx]; simpl; [constructor|].
  destruct l as [|y l]; simpl; [repeat constructor|].
  inversion Hx; subst. simpl in IH.
  rewrite <- app_assoc. apply sorted_snoc; assumption.
Qed.

Lemma isort_rows_sorted l : Sorted ts_le (isort_rows l).
Proof. apply sorted_rev_ge, fold_insr_rows_sorted. constructor. Qed.

Lemma filter_insr_rows s x rp :
  filter (fun t => String.eqb (timestamp t) s) (insr_rows x rp) =
  filter (fun t => String.eqb (timestamp t) s) [x] ++
  filter (fun t => String.eqb (timestamp t) s) rp.
Proof.
  induction rp as [|y r IH]; simpl; [rewrite app_nil_r; reflexivity|].
  destruct (npy_lt (timestamp x) (timestamp y)) eqn:E; simpl;
    [|destruct (String.eqb (timestamp x) s); reflexivity].
  rewrite IH. simpl.
  destruct (String.eqb (timestamp x) s) eqn:Ex, (String.eqb (timestamp y) s) eqn:Ey;
    try reflexivity.
  apply String.eqb_eq in Ex, Ey. rewrite Ex, <- Ey, npy_lt_irrefl in E. discriminate.
Qed.

Lemma filter_fold_insr_rows s l rp :
  filter (fun t => String.eqb (timestamp t) s) (fold_left (fun acc x => insr_rows x acc) l rp) =
  rev (filter (fun t => String.eqb (timestamp t) s) l) ++
  filter (fun t => String.eqb (timestamp t) s) rp.
Proof.
  revert rp. induction l as [|x l IH]; intros rp; simpl; [reflexivity|].
  rewrite IH, filter_insr_rows. simpl.
  destruct (String.eqb (timestamp x) s); simpl; [rewrite <- app_assoc|]; reflexivity.
Qed.

Lemma filter_rev' {A} (f : A -> bool) l : filter f (rev l) = rev (filter f l).
Proof.
  induction l as [|x l IH]; simpl; [reflexivity|].
  rewrite filter_app, IH. simpl. destruct (f x); simpl; [|rewrite app_nil_r]; reflexivity.
Qed.

Lemma isort_rows_stable l : stable_wrt l (isort_rows l).
Proof.
  intros s. unfold isort_rows. rewrite filter_rev', filter_fold_insr_rows. simpl.
  rewrite app_nil_r, rev_involutive. reflexivity.
Qed.

End RowSort.

(** ** Order of ties *)

(** C4 (as stated: the final sort is stable) fails for the sort pandas
    runs: 18 rows generated with one timestamp come out of
    [sort_values('timestamp')] in the order 0, 15, 14, ..., 1, 16, 17. *)
Lemma batch_sort_stable_counterexample :
  ~ (forall cfg rng clk n w pre w1 df w2,
       rng_ok rng ->
       collect_transactions cfg rng clk n w = inr (pre, w1) ->
       generer_batch_transactions cfg rng clk pandas_sort_values n w = inr (df, w2) ->
       stable_wrt pre df).
Proof.
  intros H.
  assert (Ec : collect_transactions config0 rng_zero clock_demo 18 world0 =
               inr (result_value [] tie18_collect, result_world tie18_collect))
    by (vm_compute; reflexivity).
  assert (Er : generer_batch_transactions config0 rng_zero clock_demo pandas_sort_values 18 world0 =
               inr (result_value [] tie18_run, result_world tie18_run))
    by (vm_compute; reflexivity).
  pose proof (H config0 rng_zero clock_demo 18%nat world0 _ _ _ _ rng_zero_ok Ec Er
                "2026-10-10 12:34:56") as H1.
  vm_compute in H1. discriminate H1.
Qed.

(** C4, amended: [sort_values('timestamp')] runs numpy's introsort, which
    finishes a segment of at most 17 entries by insertion sort.  For a
    batch of at most 17 rows the returned rows are a permutation of the
    generated ones, sorted by timestamp, and rows with equal timestamps
    keep their generation order. *)
Theorem batch_small_stable cfg rng clk n w pre w1 df w2 :
  (n <= 17)%nat ->
  collect_transactions cfg rng clk n w = inr (pre, w1) ->
  generer_batch_transactions cfg rng clk pandas_sort_values n w = inr (df, w2) ->
  Permutation pre df /\ Sorted ts_le df /\ stable_wrt pre df.
Proof.
  intros Hn Hc H. apply batch_inv in H as (pre' & Hc' & Hne & ->).
  rewrite Hc in Hc'. injection Hc' as <- _.
  apply collect_inv in Hc as [w' Hl]. apply batch_loop_length in Hl.
  rewrite pandas_sort_values_small
    by (destruct pre; [congruence | simpl in *; lia]).
  split; [apply isort_rows_perm|]. split; [apply isort_rows_sorted | apply isort_rows_stable].
Qed.

Lemma batch_small_stable_witness :
  Permutation (result_value [] tie17_collect) (result_value [] tie17_run) /\
  Sorted ts_le (result_value [] tie17_run) /\
  stable_wrt (result_value [] tie17_collect) (result_value [] tie17_run).
Proof.
  apply (batch_small_stable config0 rng_zero clock_demo 17 world0 _ (result_world tie17_collect)
           _ (result_world tie17_run)); [lia | vm_compute; reflexivity | vm_compute; reflexivity].
Defined.

(** ** Edge cases of the batch and witnesses *)

(** The string order of [strftime('%Y-%m-%d %H:%M:%S')] renderings is the
    chronological order at second granularity: for two valid datetimes,
    comparing the rendered strings gives the comparison of the whole
    seconds since 0001-01-01. *)
Theorem timestamp_order_is_chronological t1 t2 :
  dt_valid t1 = true -> dt_valid t2 = true -> Y1000_US <= t1 -> Y1000_US <= t2 ->
  String.compare (strftime t1) (strftime t2) = Z.compare (t1 / US) (t2 / US).
Proof. apply strftime_compare. Qed.

(** Witnesses *)

Lemma timestamp_order_is_chronological_witness :
  String.compare (strftime 63927837296789012) (strftime (63927837296789012 + HOUR_US)) =
  Z.compare (63927837296789012 / US) ((63927837296789012 + HOUR_US) / US).
Proof.
  apply timestamp_order_is_chronological;
    first [vm_compute; reflexivity | unfold Y1000_US, HOUR_US, DAY_US, US; lia].
Defined.

Lemma batch_chronological_witness :
  exists k1 k2,
    timestamp (nth 0 demo_df demo_tx) =
      strftime (datetime_now clock_demo (clock_calls world0) - 7 * DAY_US + k1 * HOUR_US) /\
    timestamp (nth 1 demo_df demo_tx) =
      strftime (datetime_now clock_demo (clock_calls world0) - 7 * DAY_US + k2 * HOUR_US) /\
    0 <= k1 <= k2 /\ k2 <= 7 * 24.
Proof.
  refine (batch_chronological config0 rng_demo clock_demo insertion_sort_stable 3 world0
           demo_df demo_world rng_demo_ok insertion_sort_stable_contract _ demo_run_eq 0 demo_tx _).
  - cbn. unfold Y1000_US, DAY_US, US. lia.
  - apply Nat.ltb_lt. vm_compute. reflexivity.
Defined.

Lemma batch_config0_succeeds_witness :
  exists df w', generer_batch_transactions config0 rng_demo clock_demo insertion_sort_stable 3 world0
                = inr (df, w') /\ List.length df = 3%nat.
Proof.
  apply batch_config0_succeeds; [exact rng_demo_ok | exact insertion_sort_stable_contract | lia |].
  cbn. unfold MAX_US, DAY_US, US. lia.
Defined.

Lemma batch_draw_count_witness :
  demo_world = mkWorld (2 * 3 + 0) (6 * 3 + 0) (1 + 2 * 3 + 0).
Proof. exact (batch_draw_count config0 rng_demo clock_demo insertion_sort_stable 3 world0
                demo_df demo_world demo_run_eq). Defined.

Lemma batch_fields_from_config_witness :
  Forall (fun t => In (city t) (VILLES config0) /\ In (operator t) (OPERATEURS config0) /\
    In (transaction_type t) (map fst (TRANSACTION_TYPES config0)) /\ status t = "completed")
    demo_df.
Proof.
  apply Forall_forall.
  exact (batch_fields_from_config config0 rng_demo clock_demo insertion_sort_stable 3 world0
           demo_df demo_world insertion_sort_stable_contract demo_run_eq).
Defined.

Lemma zero_weight_type_never_drawn_witness :
  Forall (fun t => transaction_type t <> "deposit") (result_value [] no_deposit_run).
Proof.
  apply Forall_forall.
  apply (zero_weight_type_never_drawn config_no_deposit rng_demo clock_demo insertion_sort_stable
           3 world0 _ (result_world no_deposit_run) "deposit" 0%Q rng_demo_ok
           insertion_sort_stable_contract).
  - vm_compute. repeat constructor; simpl; intuition discriminate.
  - reflexivity.
  - reflexivity.
  - vm_compute. reflexivity.
Defined.

Lemma generer_montant_clamps_witness :
  generer_montant config0 rng_demo "refund" world0 = inl (KeyError "refund").
Proof. apply (proj1 (generer_montant_clamps config0 rng_demo "refund" world0)). reflexivity. Defined.

Lemma np_choice_valid_args_witness :
  exists i x pi,
    np_choice rng_demo (map fst (TRANSACTION_TYPES config0)) (map snd (TRANSACTION_TYPES config0))
      world0 = inr (x, mkWorld 1 0 0) /\
    nth_error (map fst (TRANSACTION_TYPES config0)) i = Some x /\
    nth_error (map snd (TRANSACTION_TYPES config0)) i = Some pi /\ (0 < pi)%Q.
Proof.
  apply (np_choice_valid_args rng_demo _ _ world0 rng_demo_ok).
  - discriminate.
  - reflexivity.
  - intros x Hx. simpl in Hx.
    repeat (destruct Hx as [<- | Hx]; [vm_compute; discriminate|]). destruct Hx.
  - vm_compute. discriminate.
Defined.

Lemma stats_period_first_last_witness :
  periode (statistiques sort_counts demo_df) =
  Some (timestamp (hd demo_tx demo_df), timestamp (last demo_df demo_tx)).
Proof.
  exact (stats_period_first_last config0 rng_demo clock_demo insertion_sort_stable 3 world0
           demo_df demo_world sort_counts demo_tx insertion_sort_stable_contract demo_run_eq).
Defined.

Lemma value_counts_exact_witness :
  list_sum (map snd (value_counts sort_counts ["a"; "b"; "a"])) = 3%nat.
Proof. apply (value_counts_exact sort_counts ["a"; "b"; "a"] sort_counts_contract). Defined.

Lemma batch_stats_witness :
  nb_transactions (statistiques sort_counts demo_df) = 3%nat /\
  list_sum (map snd (par_ville (statistiques sort_counts demo_df))) = 3%nat.
Proof.
  destruct (batch_stats config0 rng_demo clock_demo insertion_sort_stable sort_counts 3 world0
              demo_df demo_world insertion_sort_stable_contract sort_counts_contract demo_run_eq)
    as (H1 & _ & _ & _ & H2 & _).
  split; [exact H1 | exact H2].
Defined.

Lemma csv_export_round_trip_witness :
  exists df, generer_batch_transactions config0 rng_demo clock_demo insertion_sort_stable 1 world0
             = inr (df, result_world export_today) /\
    map (split_on comma) (split_on lf (result_value "" export_today)) =
    (header_fields :: map (csv_fields (amount_column_int df)) df ++ [[""]])%list.
Proof.
  apply csv_export_round_trip;
    [exact insertion_sort_stable_contract | vm_compute; reflexivity | vm_compute; reflexivity
    | vm_compute; reflexivity | vm_compute; reflexivity | vm_compute; reflexivity].
Defined.
